(** * osxkeychain: identity lookup and PKCS12 export

    A shallow embedding of the Go package [osxkeychain]
    ([FindIdentity], [ExportFromKeychain], the dictionary accessors) and
    of the identity loop of [cli.scan], together with the properties of
    the credential-store specification that concern them.

    The CoreFoundation / Security framework is an external collaborator:
    what its primitives answer is gathered in the record [Env]; what the
    Go code does to it is recorded, call by call, in the [calls] log of
    the [World].

    Left out of the log: the output of logrus and [fmt.Println], the C
    strings (allocated by [C.CString], freed by deferred [C.free]) and
    the creation of CoreFoundation temporaries (query dictionary, key
    and passphrase strings, export array). *)

From Stdlib Require Import ZArith Strings.Byte DecimalString DecimalZ.
From stdpp Require Import gmap strings list.

Open Scope Z_scope.

(** ** CoreFoundation objects *)

Definition CFTypeID := N.
Definition CFStringGetTypeID : CFTypeID := 7%N.

(** An object of the store: its address, its dynamic type tag and, for
    strings, what [CFStringGetCStringPtr (_, kCFStringEncodingUTF8)]
    answers ([None] is the NULL pointer). *)
Record CFObject := {
  cf_addr : Z;
  cf_type : CFTypeID;
  cf_cstr : option string
}.

#[global] Instance CFObject_eq_dec : EqDecision CFObject.
Proof. solve_decision. Defined.

(** [C.CFTypeRef]: [None] is the nil pointer. *)
Abbreviation CFTypeRef := (option CFObject).

(** A [CFDictionaryRef] whose keys are strings; a key can be present
    with a NULL value. *)
Abbreviation CFDictionaryRef := (gmap string CFTypeRef).

Definition CFGetTypeID (o : CFObject) : CFTypeID := cf_type o.
Definition CFStringGetCStringPtr (o : CFObject) : option string := cf_cstr o.

Definition CFDictionaryGetValueIfPresent (dict : CFDictionaryRef) (key : string) : bool :=
  bool_decide (is_Some (dict !! key)).

Definition CFDictionaryGetValue (dict : CFDictionaryRef) (key : string) : CFTypeRef :=
  default None (dict !! key).

(** ** Go values *)

(** A Go [error]: [None] is nil, [Some msg] an error whose [Error()] is
    [msg]. *)
Abbreviation error := (option string).

(** A Go slice: [None] is the nil slice, [Some l] a slice of the
    elements [l]. *)
Abbreviation slice A := (option (list A)).

Definition len {A} (s : slice A) : nat := length (default [] s).

(** [%d] of a C integer. *)
Definition fmt_d (n : Z) : string := NilZero.string_of_int (Z.to_int n).

(** Reading a decimal back. *)
Definition parse_d (s : string) : option Z := Z.of_int <$> NilZero.int_of_string s.

Definition OSStatus := Z.
Definition errSecSuccess : OSStatus := 0.

(** ** UTIL METHODS *)

Definition getCFDictValueRef (dict : CFDictionaryRef) (key : string) : CFTypeRef * error :=
  let exist := CFDictionaryGetValueIfPresent dict key in
  if negb exist then (None, Some "getCFDictValueRef: Key doesn't exist")
  else (CFDictionaryGetValue dict key, None).

Definition getCFDictValueCFStringRef (dict : CFDictionaryRef) (key : string) : CFTypeRef * error :=
  match getCFDictValueRef dict key with
  | (_, Some err) => (None, Some err)
  | (val, None) =>
    match val with
    | None => (None, Some "getCFDictValueCFStringRef: Nil value returned")
    | Some o =>
      if negb (CFGetTypeID o =? CFStringGetTypeID)%N
      then (None, Some "getCFDictValueCFStringRef: value is not a string")
      else (val, None)
    end
  end.

Definition getCFDictValueUTF8String (dict : CFDictionaryRef) (key : string) : string * error :=
  match getCFDictValueCFStringRef dict key with
  | (_, Some err) => ("", Some err)
  | (valCFStringRef, None) =>
    match valCFStringRef with
    | None => ("", Some "getCFDictValueUTF8String: Nil value")
    | Some o =>
      match CFStringGetCStringPtr o with
      | None => ("", Some "getCFDictValueUTF8String: failed to convert value to string")
      | Some cstr => (cstr, None)
      end
    end
  end.

(** ** The world: a log of the calls made, and the files on disk *)

Inductive Call :=
| Call_SecItemCopyMatching
| Call_CFRetain (cf : CFTypeRef)
| Call_CFRelease (cf : CFTypeRef)
| Call_SecItemExport (items : list CFTypeRef)
| Call_GoBytes (cf : CFTypeRef) (n : Z)
| Call_WriteBytesToFile (pth : string) (fileCont : list byte).

Record World := {
  calls : list Call;
  files : gmap string (list byte)
}.

Definition log_call (c : Call) (w : World) : World :=
  {| calls := calls w ++ [c]; files := files w |}.

(** How a Go function ends: it returns, it panics (deferred calls still
    run), or the process dies ([log.Fatalf], a fault inside C: nothing
    deferred runs). *)
Inductive Outcome (A : Type) :=
| Returned (a : A)
| Panicked (msg : string)
| Exited (msg : string).
Arguments Returned {A} a.
Arguments Panicked {A} msg.
Arguments Exited {A} msg.

Definition M (A : Type) : Type := World -> Outcome A * World.

Definition ret {A} (a : A) : M A := fun w => (Returned a, w).

Definition bind {A B} (m : M A) (k : A -> M B) : M B :=
  fun w =>
    match m w with
    | (Returned a, w') => k a w'
    | (Panicked msg, w') => (Panicked msg, w')
    | (Exited msg, w') => (Exited msg, w')
    end.

Definition call (c : Call) : M unit := fun w => (Returned tt, log_call c w).
Definition panic {A} (msg : string) : M A := fun w => (Panicked msg, w).
Definition exit {A} (msg : string) : M A := fun w => (Exited msg, w).

(** [defer d] followed by the rest of the function body. *)
Definition defer {A} (d : M unit) (body : M A) : M A :=
  fun w =>
    match body w with
    | (Exited msg, w') => (Exited msg, w')
    | (o, w') => (o, snd (d w'))
    end.

Declare Scope go_scope.
Delimit Scope go_scope with go.
Notation "x <- m ;; k" := (bind m (fun x => k))
  (at level 100, m at next level, right associativity) : go_scope.
Notation "m ;;; k" := (bind m (fun _ => k))
  (at level 100, right associativity) : go_scope.
Open Scope go_scope.

(** The exit of a loop body: [return r] or on to the next iteration. *)
Inductive Flow (R A : Type) :=
| Return (r : R)
| Next (a : A).
Arguments Return {R A} r.
Arguments Next {R A} a.

(** ** What the platform answers *)

(** A [CFDataRef]: the object, its [CFDataGetLength] and the memory at
    [CFDataGetBytePtr]. *)
Record CFData := {
  data_obj : CFObject;
  CFDataGetLength : Z;
  CFDataGetBytePtr : Z -> byte
}.

Record Env := {
  (** the dictionary [CFDictionaryCreateMutable] hands out *)
  env_queryDict : CFTypeRef;
  (** [SecItemCopyMatching]: status, result array and its elements *)
  env_copy_status : OSStatus;
  env_resultRefs : CFTypeRef;
  env_identities : list CFDictionaryRef;
  (** [SecItemExport]: status and exported data *)
  env_export : list CFTypeRef -> OSStatus * CFData;
  (** [fileutil.WriteBytesToFile]: [None] when the write goes through,
      else the error text and what is left at the path, if anything *)
  env_write_fault : string -> list byte -> option (string * option (list byte))
}.

(** Conversion to [C.int] (32 bits, two's complement) of a wider C
    integer such as [CFIndex], a 64-bit [long] on the platforms the tool
    is built for. *)
Definition C_int (n : Z) : Z := (n + 2 ^ 31) `mod` 2 ^ 32 - 2 ^ 31.

Definition CFArrayGetCount {A} (arr : list A) : Z := Z.of_nat (length arr).

Definition CFRetain (cf : CFTypeRef) : M CFTypeRef :=
  match cf with
  | None => exit "CFRetain: NULL"
  | Some _ => call (Call_CFRetain cf) ;;; ret cf
  end.

Definition CFRelease (cf : CFTypeRef) : M unit := call (Call_CFRelease cf).

Definition GoBytes (d : CFData) (n : Z) : M (list byte) :=
  if n <? 0 then panic "gobytes: length out of range"
  else call (Call_GoBytes (Some (data_obj d)) n) ;;;
       ret (CFDataGetBytePtr d <$> seqZ 0 n).

Definition WriteBytesToFile (E : Env) (pth : string) (fileCont : list byte) : M error :=
  fun w =>
    let w1 := log_call (Call_WriteBytesToFile pth fileCont) w in
    match env_write_fault E pth fileCont with
    | None => (Returned None, {| calls := calls w1; files := <[pth := fileCont]> (files w1) |})
    | Some (msg, None) => (Returned (Some msg), w1)
    | Some (msg, Some part) =>
      (Returned (Some msg), {| calls := calls w1; files := <[pth := part]> (files w1) |})
    end.

(** ** FindIdentity *)

(** The filtering loop [for i := identitiesCount - 1; i > 0; i--],
    entered with index [i] and accumulator [retIdentityRefs]. *)
Fixpoint FindIdentity_loop (identitiesArrRef : list CFDictionaryRef) (identityLabel : string)
    (i : nat) (retIdentityRefs : list CFTypeRef)
    : M (Flow (slice CFTypeRef * error) (list CFTypeRef)) :=
  match i with
  | O => ret (Next retIdentityRefs)
  | S j =>
    match identitiesArrRef !! i with
    | None => exit "CFArrayGetValueAtIndex: index out of range"
    | Some aIdentityDictRef =>
      match getCFDictValueUTF8String aIdentityDictRef "labl" with
      | (_, Some err) =>
        ret (Return (None, Some ("FindIdentity: failed to get 'labl' property: " +:+ err)))
      | (labl, None) =>
        if negb (String.eqb labl identityLabel)
        then FindIdentity_loop identitiesArrRef identityLabel j retIdentityRefs
        else
          match getCFDictValueRef aIdentityDictRef "v_Ref" with
          | (_, Some err) =>
            ret (Return (None, Some ("FindIdentity: failed to get 'v_Ref' property: " +:+ err)))
          | (vrefRef, None) =>
            vrefRef <- CFRetain vrefRef ;;
            FindIdentity_loop identitiesArrRef identityLabel j (retIdentityRefs ++ [vrefRef])
          end
      end
    end
  end.

Definition FindIdentity (E : Env) (identityLabel : string) : M (slice CFTypeRef * error) :=
  defer (CFRelease (env_queryDict E)) (
    call Call_SecItemCopyMatching ;;;
    let osStatusCode := env_copy_status E in
    if negb (osStatusCode =? errSecSuccess)
    then ret (None, Some ("Failed to call SecItemCopyMatch - OSStatus: " +:+ fmt_d osStatusCode))
    else
      defer (CFRelease (env_resultRefs E)) (
        let identitiesArrRef := env_identities E in
        let identitiesCount := CFArrayGetCount identitiesArrRef in
        if identitiesCount <? 1
        then ret (None, Some "No Identity found in your Keychain with the specified Label!")
        else
          r <- FindIdentity_loop identitiesArrRef identityLabel
                 (Z.to_nat (identitiesCount - 1)) [] ;;
          match r with
          | Return early => ret early
          | Next retIdentityRefs => ret (Some retIdentityRefs, None)
          end)).

(** ** ExportFromKeychain *)

Definition ExportFromKeychain (E : Env) (itemRefsToExport : slice CFTypeRef)
    (outputFilePath : string) : M error :=
  match default [] itemRefsToExport with
  | [] => panic "index out of range"
  | _ :: _ =>
    let '(status, exportedData) := env_export E (default [] itemRefsToExport) in
    call (Call_SecItemExport (default [] itemRefsToExport)) ;;;
    if negb (status =? errSecSuccess)
    then ret (Some ("SecItemExport: error (OSStatus): " +:+ fmt_d status))
    else
      defer (CFRelease (Some (data_obj exportedData))) (
        dataBytes <- GoBytes exportedData (C_int (CFDataGetLength exportedData)) ;;
        err <- WriteBytesToFile E outputFilePath dataBytes ;;
        match err with
        | Some msg => ret (Some ("ExportFromKeychain: failed to write into file: " +:+ msg))
        | None => ret None
        end)
  end.

Definition ReleaseRef (refItem : CFTypeRef) : M unit := CFRelease refItem.

Fixpoint ReleaseRefList (refItems : list CFTypeRef) : M unit :=
  match refItems with
  | [] => ret tt
  | itm :: rest => ReleaseRef itm ;;; ReleaseRefList rest
  end.

Definition CreateEmptyCFTypeRefSlice : slice CFTypeRef := Some [].

(** ** cli.scan: resolving the required identities *)

(** The loop of [scan] over [codeSigningSettings.Identities] (their
    titles), with [identityExportRefs] as accumulated so far. *)
Fixpoint scan_identities (E : Env) (titles : list string) (identityExportRefs : list CFTypeRef)
    : M (list CFTypeRef) :=
  match titles with
  | [] => ret identityExportRefs
  | title :: rest =>
    r <- FindIdentity E title ;;
    let '(identityRefs, err) := r in
    match err with
    | Some msg => exit ("Failed to Export Identity: " +:+ msg)
    | None =>
      if (len identityRefs <? 1)%nat then exit "No Identity found in Keychain!"
      else if (1 <? len identityRefs)%nat
      then exit "Multiple matching Identities found in Keychain! Most likely you have duplicate identity in separate Keychains, like one in System.keychain and one in your Login.keychain"
      else scan_identities E rest (identityExportRefs ++ default [] identityRefs)
    end
  end.

(** ** Accounting over the call log *)

Definition retained (cs : list Call) : list CFTypeRef :=
  omap (fun c => match c with Call_CFRetain cf => Some cf | _ => None end) cs.

Definition released (cs : list Call) : list CFTypeRef :=
  omap (fun c => match c with Call_CFRelease cf => Some cf | _ => None end) cs.

Fixpoint remove_one (cf : CFTypeRef) (held : list CFTypeRef) : list CFTypeRef :=
  match held with
  | [] => []
  | x :: rest => if decide (x = cf) then rest else x :: remove_one cf rest
  end.

(** The handles retained by the calls [cs] that no release of [cs]
    accounts for. *)
Definition outstanding (cs : list Call) : list CFTypeRef :=
  foldl (fun held cf => remove_one cf held) (retained cs) (released cs).

(** [w] after the calls [cs]. *)
Definition after (w : World) (cs : list Call) : World :=
  {| calls := calls w ++ cs; files := files w |}.

(** ** Identity records, as FindIdentity reads them *)

Definition record_label (d : CFDictionaryRef) : option string :=
  match getCFDictValueUTF8String d "labl" with
  | (labl, None) => Some labl
  | (_, Some _) => None
  end.

Definition record_ref (d : CFDictionaryRef) : option CFObject :=
  match getCFDictValueRef d "v_Ref" with
  | (Some o, None) => Some o
  | _ => None
  end.

(** A record the filter can go through when looking for [identityLabel]:
    its label reads, and its reference too if the label is the one asked
    for. *)
Definition scannable (identityLabel : string) (d : CFDictionaryRef) : Prop :=
  exists labl, record_label d = Some labl /\
    (labl = identityLabel -> is_Some (record_ref d)).

(** The reference attributes of the records labelled [identityLabel]. *)
Definition matching (identityLabel : string) (arr : list CFDictionaryRef) : list CFObject :=
  omap (fun d => if decide (record_label d = Some identityLabel) then record_ref d else None) arr.

(** The error text with [prefix] taken off, read as a number. *)
Fixpoint strip_prefix (prefix s : string) : option string :=
  match prefix with
  | EmptyString => Some s
  | String a prefix' =>
    match s with
    | String b s' => if Ascii.eqb a b then strip_prefix prefix' s' else None
    | EmptyString => None
    end
  end.

Definition status_in (prefix msg : string) : option Z :=
  strip_prefix prefix msg ≫= parse_d.

(** ** Sample store contents *)

Definition mkObject (addr : Z) (tid : CFTypeID) (cstr : option string) : CFObject :=
  {| cf_addr := addr; cf_type := tid; cf_cstr := cstr |}.

Definition SecIdentityTypeID : CFTypeID := 42%N.

Definition mkString (addr : Z) (s : string) : CFTypeRef :=
  Some (mkObject addr CFStringGetTypeID (Some s)).

Definition mkIdentity (addr : Z) : CFObject := mkObject addr SecIdentityTypeID None.

Definition mkRecord (addr : Z) (labl : string) (vref : CFObject) : CFDictionaryRef :=
  <["labl" := mkString addr labl]> (<["v_Ref" := Some vref]> ∅).

Definition mkData (addr : Z) (length : Z) : CFData :=
  {| data_obj := mkObject addr 20%N None;
     CFDataGetLength := length;
     CFDataGetBytePtr := fun _ => x00 |}.

Definition mkEnv (status : OSStatus) (identities : list CFDictionaryRef)
    (export_status : OSStatus) (exported : CFData) : Env :=
  {| env_queryDict := Some (mkObject 1 18%N None);
     env_copy_status := status;
     env_resultRefs := Some (mkObject 2 19%N None);
     env_identities := identities;
     env_export := fun _ => (export_status, exported);
     env_write_fault := fun _ _ => None |}.

Definition empty_world : World := {| calls := []; files := ∅ |}.

Definition store_match_at_0 : Env :=
  mkEnv 0 [mkRecord 10 "Test Cert" (mkIdentity 100); mkRecord 11 "Other" (mkIdentity 101)]
        0 (mkData 900 5).

Definition store_match_at_1 : Env :=
  mkEnv 0 [mkRecord 11 "Other" (mkIdentity 101); mkRecord 10 "Test Cert" (mkIdentity 100)]
        0 (mkData 900 5).

Definition store_duplicates : Env :=
  mkEnv 0 [mkRecord 10 "Other" (mkIdentity 100);
           mkRecord 11 "Test Cert" (mkIdentity 101);
           mkRecord 12 "Test Cert" (mkIdentity 102)]
        0 (mkData 900 5).

Definition store_unreadable : Env :=
  mkEnv 0 [mkRecord 10 "Other" (mkIdentity 100);
           <["labl" := None]> ∅;
           mkRecord 12 "Test Cert" (mkIdentity 102)]
        0 (mkData 900 5).

(** errSecAuthFailed *)
Definition store_denied : Env := mkEnv (-25293) [] (-25293) (mkData 900 0).

Definition store_huge_export : Env :=
  mkEnv 0 [mkRecord 10 "Test Cert" (mkIdentity 100)] 0 (mkData 900 (2 ^ 32 + 3)).

(** ** cli.scan: from the code signing checks to the export *)

(** What the terminal and the file system utilities answer to [scan]:
    [goinp.AskForBool], [pathutil.AbsPath], [pathutil.IsDirExists],
    [os.Mkdir] and [path.Join]. *)
Record Host := {
  host_AskForBool : bool * error;
  host_AbsPath : string -> string * error;
  host_IsDirExists : string -> bool * error;
  host_Mkdir : string -> error;
  host_Join : string -> string -> string
}.

Definition confExportOutputDirPath : string := "./codesigndoc_exports".

(** The export directory of [scan]: created when it is not there. *)
Definition scan_export_dir (H : Host) (absExportOutputDirPath : string) : M unit :=
  let '(dirExist, err) := host_IsDirExists H absExportOutputDirPath in
  match err with
  | Some msg =>
    exit ("Failed to determin whether the export directory already exists: " +:+ msg)
  | None =>
    if negb dirExist
    then
      match host_Mkdir H absExportOutputDirPath with
      | Some msg =>
        exit ("Failed to create export output directory at path: "
              +:+ absExportOutputDirPath +:+ " | error: " +:+ msg)
      | None => ret tt
      end
    else ret tt
  end.

(** [scan] from its code signing checks to the call of
    [ExportFromKeychain], given the titles of
    [codeSigningSettings.Identities] and the (title, UUID) pairs of
    [codeSigningSettings.ProvProfiles]. The copy of the provisioning
    profiles, which follows, is run by external commands and is not
    part of it. *)
Definition scan_export (E : Env) (H : Host) (Identities : list string)
    (ProvProfiles : list (string * string)) : M unit :=
  if (length Identities <? 1)%nat then exit "No Code Signing Identity detected!"
  else if (length ProvProfiles <? 1)%nat then exit "No Provisioning Profiles detected!"
  else
    let '(isShouldExport, err) := host_AskForBool H in
    match err with
    | Some msg => exit ("Failed to process your input: " +:+ msg)
    | None =>
      if negb isShouldExport then ret tt
      else
        let '(absExportOutputDirPath, err) := host_AbsPath H confExportOutputDirPath in
        match err with
        | Some _ =>
          exit ("Failed to determin Absolute path of export dir: " +:+ confExportOutputDirPath)
        | None =>
          scan_export_dir H absExportOutputDirPath ;;;
          let identityExportRefs := CreateEmptyCFTypeRefSlice in
          defer (ReleaseRefList (default [] identityExportRefs)) (
            identityExportRefs <- scan_identities E Identities (default [] identityExportRefs) ;;
            err <- ExportFromKeychain E (Some identityExportRefs)
                     (host_Join H absExportOutputDirPath "Identities.p12") ;;
            match err with
            | Some msg => exit ("Failed to export from Keychain: " +:+ msg)
            | None => ret tt
            end)
        end
    end.

(** The call log of one successful resolution in [scan]. *)
Definition resolution_calls (E : Env) (ref : CFTypeRef) : list Call :=
  [Call_SecItemCopyMatching; Call_CFRetain ref;
   Call_CFRelease (env_resultRefs E); Call_CFRelease (env_queryDict E)].

(** ** More sample contents *)

Definition store_disk_full : Env :=
  {| env_queryDict := Some (mkObject 1 18%N None);
     env_copy_status := 0;
     env_resultRefs := Some (mkObject 2 19%N None);
     env_identities :=
       [mkRecord 11 "Other" (mkIdentity 101); mkRecord 10 "Test Cert" (mkIdentity 100)];
     env_export := fun _ => (0, mkData 900 5);
     env_write_fault := fun _ _ => Some ("no space left on device", Some [x00; x00]) |}.

Definition host_yes : Host :=
  {| host_AskForBool := (true, None);
     host_AbsPath := fun _ => ("/work/codesigndoc_exports", None);
     host_IsDirExists := fun _ => (false, None);
     host_Mkdir := fun _ => None;
     host_Join := fun dir elem => dir +:+ "/" +:+ elem |}.

Definition host_no : Host :=
  {| host_AskForBool := (false, None);
     host_AbsPath := fun _ => ("/work/codesigndoc_exports", None);
     host_IsDirExists := fun _ => (true, None);
     host_Mkdir := fun _ => None;
     host_Join := fun dir elem => dir +:+ "/" +:+ elem |}.

(** ** Formatting *)

Lemma parse_fmt_d (n : Z) : parse_d (fmt_d n) = Some n.
Proof.
  unfold parse_d, fmt_d.
  rewrite NilZero.isi.
  - simpl. f_equal. apply DecimalZ.of_to.
  - destruct n; simpl; try discriminate.
    intros [= H]. revert H. apply DecimalPos.Unsigned.to_uint_nonnil.
  - destruct n; simpl; try discriminate.
    intros [= H]. revert H. apply DecimalPos.Unsigned.to_uint_nonnil.
Qed.

Lemma strip_prefix_app (prefix s : string) : strip_prefix prefix (prefix +:+ s) = Some s.
Proof.
  induction prefix as [|a prefix IH]; simpl; [reflexivity|].
  rewrite Ascii.eqb_refl. exact IH.
Qed.

Lemma status_in_errorf (prefix : string) (n : Z) :
  status_in prefix (prefix +:+ fmt_d n) = Some n.
Proof.
  unfold status_in. rewrite strip_prefix_app. simpl. apply parse_fmt_d.
Qed.

Lemma status_neq (status : OSStatus) :
  status <> errSecSuccess -> negb (status =? errSecSuccess) = true.
Proof. intros H. apply negb_true_iff, Z.eqb_neq, H. Qed.

(** ** The typed attribute reader *)

(** C8. The string accessor [getCFDictValueUTF8String] answers an error,
    never a string, when the value under the key is an object whose type
    tag is not the string one; and it answers an error (not the empty
    string with a nil error) when the value under the key is the NULL
    pointer, or when the UTF-8 pointer of a string value is NULL. *)
Theorem getCFDictValueUTF8String_faults (dict : CFDictionaryRef) (key : string) :
  (forall o, dict !! key = Some (Some o) -> CFGetTypeID o <> CFStringGetTypeID ->
     getCFDictValueUTF8String dict key
     = ("", Some "getCFDictValueCFStringRef: value is not a string"))
  /\ (dict !! key = Some None ->
     getCFDictValueUTF8String dict key
     = ("", Some "getCFDictValueCFStringRef: Nil value returned"))
  /\ (forall o, dict !! key = Some (Some o) -> CFGetTypeID o = CFStringGetTypeID ->
     CFStringGetCStringPtr o = None ->
     getCFDictValueUTF8String dict key
     = ("", Some "getCFDictValueUTF8String: failed to convert value to string")).
Proof.
  unfold getCFDictValueUTF8String, getCFDictValueCFStringRef, getCFDictValueRef,
    CFDictionaryGetValueIfPresent, CFDictionaryGetValue.
  repeat split.
  - intros o Hk Hty. rewrite Hk. simpl.
    apply N.eqb_neq in Hty. rewrite Hty. reflexivity.
  - intros Hk. rewrite Hk. reflexivity.
  - intros o Hk Hty Hptr. rewrite Hk. simpl.
    apply N.eqb_eq in Hty. rewrite Hty. simpl. rewrite Hptr. reflexivity.
Qed.

Lemma getCFDictValueUTF8String_faults_witness :
  getCFDictValueUTF8String (<["labl" := Some (mkIdentity 5)]> ∅) "labl"
    = ("", Some "getCFDictValueCFStringRef: value is not a string")
  /\ getCFDictValueUTF8String (<["labl" := None]> ∅) "labl"
    = ("", Some "getCFDictValueCFStringRef: Nil value returned")
  /\ getCFDictValueUTF8String
       (<["labl" := Some (mkObject 5 CFStringGetTypeID None)]> ∅) "labl"
    = ("", Some "getCFDictValueUTF8String: failed to convert value to string").
Proof.
  split; [|split].
  - apply (proj1 (getCFDictValueUTF8String_faults _ "labl") (mkIdentity 5));
      [reflexivity | discriminate].
  - apply (proj1 (proj2 (getCFDictValueUTF8String_faults _ "labl"))); reflexivity.
  - apply (proj2 (proj2 (getCFDictValueUTF8String_faults _ "labl"))
             (mkObject 5 CFStringGetTypeID None)); reflexivity.
Defined.

(** The accessor succeeds exactly on a string value with a UTF-8
    pointer, and then answers that string. *)
Lemma getCFDictValueUTF8String_ok (dict : CFDictionaryRef) (key s : string) :
  getCFDictValueUTF8String dict key = (s, None) <->
  exists o, dict !! key = Some (Some o) /\ CFGetTypeID o = CFStringGetTypeID
            /\ CFStringGetCStringPtr o = Some s.
Proof.
  unfold getCFDictValueUTF8String, getCFDictValueCFStringRef, getCFDictValueRef,
    CFDictionaryGetValueIfPresent, CFDictionaryGetValue.
  destruct (dict !! key) as [[o|]|] eqn:Hk; simpl.
  - destruct (CFGetTypeID o =? CFStringGetTypeID)%N eqn:Hty; simpl.
    + destruct (CFStringGetCStringPtr o) as [c|] eqn:Hptr.
      * split.
        -- intros [= <-]. exists o. apply N.eqb_eq in Hty. auto.
        -- intros (o' & [= <-] & _ & Hs). congruence.
      * split; [discriminate|]. intros (o' & [= <-] & _ & Hs). congruence.
    + split; [discriminate|]. intros (o' & [= <-] & Hty' & _).
      apply N.eqb_neq in Hty. contradiction.
  - split; [discriminate|]. intros (o & [=] & _).
  - split; [discriminate|]. intros (o & [=] & _).
Qed.

(** ** Worlds and call logs *)

Lemma after_nil (w : World) : after w [] = w.
Proof. destruct w as [cs fs]. unfold after. simpl. by rewrite app_nil_r. Qed.

Lemma after_after (w : World) (cs1 cs2 : list Call) :
  after (after w cs1) cs2 = after w (cs1 ++ cs2).
Proof. unfold after. simpl. by rewrite app_assoc. Qed.

Lemma log_call_after (c : Call) (w : World) : log_call c w = after w [c].
Proof. reflexivity. Qed.

Lemma retained_app (cs1 cs2 : list Call) : retained (cs1 ++ cs2) = retained cs1 ++ retained cs2.
Proof. apply omap_app. Qed.

Lemma released_app (cs1 cs2 : list Call) : released (cs1 ++ cs2) = released cs1 ++ released cs2.
Proof. apply omap_app. Qed.

Lemma retained_retains (hs : list CFTypeRef) : retained (Call_CFRetain <$> hs) = hs.
Proof. induction hs as [|h hs IH]; [done|]. cbn. f_equal. exact IH. Qed.

Lemma released_retains (hs : list CFTypeRef) : released (Call_CFRetain <$> hs) = [].
Proof. induction hs as [|h hs IH]; [done|]. exact IH. Qed.

Lemma remove_one_absent (cf : CFTypeRef) (held : list CFTypeRef) :
  cf ∉ held -> remove_one cf held = held.
Proof.
  induction held as [|x held IH]; simpl; [done|].
  intros Hnot. apply not_elem_of_cons in Hnot as [Hne Hnot].
  destruct (decide (x = cf)) as [->|_]; [done|]. by rewrite IH.
Qed.

Lemma outstanding_nothing_retained (cs : list Call) : retained cs = [] -> outstanding cs = [].
Proof.
  unfold outstanding. intros ->.
  induction (released cs) as [|cf l IH]; simpl; done.
Qed.

(** ** One turn of the filtering loop *)

Section loop_steps.
Variables (arr : list CFDictionaryRef) (identityLabel : string).
Variables (j : nat) (d : CFDictionaryRef).
Hypothesis Hd : arr !! S j = Some d.

Lemma record_label_read (labl : string) :
  record_label d = Some labl -> getCFDictValueUTF8String d "labl" = (labl, None).
Proof.
  unfold record_label.
  destruct (getCFDictValueUTF8String d "labl") as [s [e|]]; [discriminate|].
  by intros [= ->].
Qed.

Lemma record_ref_read (o : CFObject) :
  record_ref d = Some o -> getCFDictValueRef d "v_Ref" = (Some o, None).
Proof.
  unfold record_ref.
  destruct (getCFDictValueRef d "v_Ref") as [[o'|] [e|]]; try discriminate.
  by intros [= ->].
Qed.

Lemma loop_skip (labl : string) (acc : list CFTypeRef) :
  record_label d = Some labl -> labl <> identityLabel ->
  FindIdentity_loop arr identityLabel (S j) acc
  = FindIdentity_loop arr identityLabel j acc.
Proof.
  intros Hl Hne. simpl. rewrite Hd, (record_label_read _ Hl).
  apply String.eqb_neq in Hne. by rewrite Hne.
Qed.

Lemma loop_match (o : CFObject) (acc : list CFTypeRef) (w : World) :
  record_label d = Some identityLabel -> record_ref d = Some o ->
  FindIdentity_loop arr identityLabel (S j) acc w
  = FindIdentity_loop arr identityLabel j (acc ++ [Some o]) (after w [Call_CFRetain (Some o)]).
Proof.
  intros Hl Hr. simpl. rewrite Hd, (record_label_read _ Hl), String.eqb_refl.
  simpl. by rewrite (record_ref_read _ Hr).
Qed.

Lemma loop_label_error (acc : list CFTypeRef) (w : World) :
  record_label d = None ->
  exists err,
    getCFDictValueUTF8String d "labl" = ("", Some err) /\
    FindIdentity_loop arr identityLabel (S j) acc w
    = (Returned (Return (None, Some ("FindIdentity: failed to get 'labl' property: " +:+ err))), w).
Proof.
  intros Hl. simpl. rewrite Hd. revert Hl. unfold record_label.
  destruct (getCFDictValueUTF8String d "labl") as [s [e|]] eqn:Hget; [|discriminate].
  intros _. exists e. split; [|done].
  revert Hget. unfold getCFDictValueUTF8String.
  destruct (getCFDictValueCFStringRef d "labl") as [[o|] [e'|]];
    try destruct (CFStringGetCStringPtr o); congruence.
Qed.
End loop_steps.

(** ** The whole scan, on records that read well *)

Lemma matching_snoc_skip (identityLabel labl : string) (rest : list CFDictionaryRef)
    (x : CFDictionaryRef) :
  record_label x = Some labl -> labl <> identityLabel ->
  matching identityLabel (rest ++ [x]) = matching identityLabel rest.
Proof.
  intros Hl Hne. unfold matching. rewrite omap_app. cbn.
  rewrite Hl. destruct (decide (Some labl = Some identityLabel)) as [[= ?]|_]; [done|].
  by rewrite app_nil_r.
Qed.

Lemma matching_snoc_match (identityLabel : string) (rest : list CFDictionaryRef)
    (x : CFDictionaryRef) (o : CFObject) :
  record_label x = Some identityLabel -> record_ref x = Some o ->
  matching identityLabel (rest ++ [x]) = matching identityLabel rest ++ [o].
Proof.
  intros Hl Hr. unfold matching. rewrite omap_app. cbn.
  rewrite Hl, Hr. by destruct (decide (Some identityLabel = Some identityLabel)).
Qed.

Lemma matching_none (identityLabel : string) (arr : list CFDictionaryRef) :
  Forall (fun d => record_label d <> Some identityLabel) arr ->
  matching identityLabel arr = [].
Proof.
  induction 1 as [|d arr Hd _ IH]; [done|].
  unfold matching in *. cbn. rewrite IH.
  by destruct (decide (record_label d = Some identityLabel)).
Qed.

(** The loop entered at the last index of [d0 :: rest] retains, from the
    last record down to index 1, the reference of every record labelled
    [identityLabel], and leaves the loop with all of them. *)
Lemma FindIdentity_loop_scan (identityLabel : string) (d0 : CFDictionaryRef)
    (rest extra : list CFDictionaryRef) (acc : list CFTypeRef) (w : World) :
  Forall (scannable identityLabel) rest ->
  FindIdentity_loop (d0 :: rest ++ extra) identityLabel (length rest) acc w
  = (Returned (Next (acc ++ (Some <$> reverse (matching identityLabel rest)))),
     after w (Call_CFRetain <$> (Some <$> reverse (matching identityLabel rest)))).
Proof.
  revert extra acc w.
  induction rest as [|x rest IH] using rev_ind; intros extra acc w Hall.
  - cbn. by rewrite app_nil_r, after_nil.
  - apply Forall_app in Hall as [Hrest Hx].
    apply Forall_singleton in Hx as (labl & Hl & Href).
    rewrite length_app, Nat.add_1_r, <- app_assoc.
    assert (Hd : (d0 :: rest ++ [x] ++ extra) !! S (length rest) = Some x).
    { exact (list_lookup_middle rest extra x (length rest) eq_refl). }
    destruct (decide (labl = identityLabel)) as [->|Hne].
    + destruct (Href eq_refl) as [o Ho].
      rewrite (loop_match _ _ _ _ Hd o acc w Hl Ho), (IH _ _ _ Hrest).
      rewrite (matching_snoc_match _ _ _ _ Hl Ho), reverse_snoc, after_after.
      cbn. by rewrite <- app_assoc.
    + rewrite (loop_skip _ _ _ _ Hd labl acc Hl Hne), (IH _ _ _ Hrest).
      by rewrite (matching_snoc_skip _ _ _ _ Hl Hne).
Qed.

(** ** FindIdentity, path by path *)

Section FindIdentity_paths.
Variables (E : Env) (identityLabel : string) (w : World).

Lemma FindIdentity_query_failure :
  env_copy_status E <> errSecSuccess ->
  FindIdentity E identityLabel w
  = (Returned (None, Some ("Failed to call SecItemCopyMatch - OSStatus: "
                           +:+ fmt_d (env_copy_status E))),
     after w [Call_SecItemCopyMatching; Call_CFRelease (env_queryDict E)]).
Proof.
  intros Hst. unfold FindIdentity, defer, bind, CFRelease, call.
  rewrite (status_neq _ Hst). unfold ret. cbn [snd].
  by rewrite !log_call_after, after_after.
Qed.

Hypothesis Hok : env_copy_status E = errSecSuccess.

Lemma FindIdentity_no_identity :
  env_identities E = [] ->
  FindIdentity E identityLabel w
  = (Returned (None, Some "No Identity found in your Keychain with the specified Label!"),
     after w [Call_SecItemCopyMatching; Call_CFRelease (env_resultRefs E);
              Call_CFRelease (env_queryDict E)]).
Proof.
  intros Hids. unfold FindIdentity, defer, bind, CFRelease, call.
  rewrite Hok, Hids. change (CFArrayGetCount [] <? 1) with true.
  unfold ret. cbv beta iota. cbn [negb Z.eqb errSecSuccess snd].
  by rewrite !log_call_after, !after_after.
Qed.

(** With at least one record, the result is that of the loop entered at
    the last index; both deferred releases follow it. *)
Lemma FindIdentity_some_identities (d0 : CFDictionaryRef) (rest : list CFDictionaryRef) :
  env_identities E = d0 :: rest ->
  FindIdentity E identityLabel w
  = match FindIdentity_loop (d0 :: rest) identityLabel (length rest) []
            (after w [Call_SecItemCopyMatching]) with
    | (Returned (Return early), w') =>
      (Returned early,
       after w' [Call_CFRelease (env_resultRefs E); Call_CFRelease (env_queryDict E)])
    | (Returned (Next retIdentityRefs), w') =>
      (Returned (Some retIdentityRefs, None),
       after w' [Call_CFRelease (env_resultRefs E); Call_CFRelease (env_queryDict E)])
    | (Panicked msg, w') =>
      (Panicked msg,
       after w' [Call_CFRelease (env_resultRefs E); Call_CFRelease (env_queryDict E)])
    | (Exited msg, w') => (Exited msg, w')
    end.
Proof.
  intros Hids. unfold FindIdentity, defer, bind, CFRelease, call.
  rewrite Hok, Hids. unfold CFArrayGetCount.
  replace (Z.to_nat (Z.of_nat (length (d0 :: rest)) - 1)) with (length rest)
    by (cbn [length]; lia).
  replace (Z.of_nat (length (d0 :: rest)) <? 1) with false
    by (symmetry; apply Z.ltb_ge; cbn [length]; lia).
  cbn [negb Z.eqb errSecSuccess]. rewrite log_call_after.
  destruct (FindIdentity_loop _ _ _ _ _) as [[[r|a]|msg|msg] w'];
    unfold ret; cbn [snd]; by rewrite ?log_call_after, ?after_after.
Qed.

(** On records that read well the call succeeds with the retained
    references of all the matching records after the first. *)
Lemma FindIdentity_scan (d0 : CFDictionaryRef) (rest : list CFDictionaryRef) :
  env_identities E = d0 :: rest ->
  Forall (scannable identityLabel) rest ->
  FindIdentity E identityLabel w
  = (Returned (Some (Some <$> reverse (matching identityLabel rest)), None),
     after w ([Call_SecItemCopyMatching]
              ++ (Call_CFRetain <$> (Some <$> reverse (matching identityLabel rest)))
              ++ [Call_CFRelease (env_resultRefs E); Call_CFRelease (env_queryDict E)])).
Proof.
  intros Hids Hall. rewrite (FindIdentity_some_identities _ _ Hids).
  pose proof (FindIdentity_loop_scan identityLabel d0 rest [] []
                (after w [Call_SecItemCopyMatching]) Hall) as Hloop.
  rewrite app_nil_r in Hloop. rewrite Hloop. cbn [app].
  by rewrite !after_after.
Qed.
End FindIdentity_paths.

(** An early [return] inside the loop always carries the nil slice and
    an error. *)
Lemma FindIdentity_loop_return (arr : list CFDictionaryRef) (identityLabel : string)
    (i : nat) (acc : list CFTypeRef) (w w' : World) (r : slice CFTypeRef * error) :
  FindIdentity_loop arr identityLabel i acc w = (Returned (Return r), w') ->
  r.1 = None /\ is_Some r.2.
Proof.
  revert acc w. induction i as [|j IH]; intros acc w; simpl.
  - unfold ret. intros [=].
  - destruct (arr !! S j) as [d|]; [|intros [=]].
    destruct (getCFDictValueUTF8String d "labl") as [labl [err|]].
    { unfold ret. intros [= <- _]. simpl. eauto. }
    destruct (negb (labl =? identityLabel)%string); [apply IH|].
    destruct (getCFDictValueRef d "v_Ref") as [vrefRef [err|]].
    { unfold ret. intros [= <- _]. simpl. eauto. }
    destruct vrefRef as [o|]; simpl; [|intros [=]].
    unfold bind, call, ret. simpl. apply IH.
Qed.

(** ** The identity loop of scan *)

Lemma scan_identities_found (E : Env) (title : string) (titles : list string)
    (acc refs : list CFTypeRef) (w w' : World) :
  FindIdentity E title w = (Returned (Some refs, None), w') ->
  scan_identities E (title :: titles) acc w
  = if (length refs <? 1)%nat then (Exited "No Identity found in Keychain!", w')
    else if (1 <? length refs)%nat
    then (Exited "Multiple matching Identities found in Keychain! Most likely you have duplicate identity in separate Keychains, like one in System.keychain and one in your Login.keychain", w')
    else scan_identities E titles (acc ++ refs) w'.
Proof.
  intros Hfind. cbn [scan_identities]. unfold bind at 1. rewrite Hfind.
  unfold len. cbn [default id].
  destruct (length refs <? 1)%nat; [done|].
  by destruct (1 <? length refs)%nat.
Qed.

(** ** ExportFromKeychain, path by path *)

Lemma C_int_small (n : Z) : - 2 ^ 31 <= n < 2 ^ 31 -> C_int n = n.
Proof. intros Hn. unfold C_int. rewrite Z.mod_small; lia. Qed.

Lemma GoBytes_length (d : CFData) (n : Z) (w w' : World) (bs : list byte) :
  GoBytes d n w = (Returned bs, w') ->
  Z.of_nat (length bs) = n /\ w' = after w [Call_GoBytes (Some (data_obj d)) n]
  /\ bs = CFDataGetBytePtr d <$> seqZ 0 n.
Proof.
  unfold GoBytes. destruct (n <? 0) eqn:Hn; [intros [=]|].
  unfold bind, call, ret. intros [= <- <-].
  apply Z.ltb_ge in Hn. rewrite length_fmap, length_seqZ. split; [lia|done].
Qed.

Section ExportFromKeychain_paths.
Variables (E : Env) (item : CFTypeRef) (items : list CFTypeRef).
Variables (outputFilePath : string) (w : World).
Variables (status : OSStatus) (exportedData : CFData).
Hypothesis Hexport : env_export E (item :: items) = (status, exportedData).

Lemma ExportFromKeychain_failure :
  status <> errSecSuccess ->
  ExportFromKeychain E (Some (item :: items)) outputFilePath w
  = (Returned (Some ("SecItemExport: error (OSStatus): " +:+ fmt_d status)),
     after w [Call_SecItemExport (item :: items)]).
Proof.
  intros Hst. unfold ExportFromKeychain. cbn [default id]. rewrite Hexport.
  unfold bind, call. by rewrite (status_neq _ Hst).
Qed.

(** After a successful export: copy, write, and the deferred release. *)
Lemma ExportFromKeychain_exported :
  status = errSecSuccess ->
  ExportFromKeychain E (Some (item :: items)) outputFilePath w
  = defer (CFRelease (Some (data_obj exportedData)))
      (dataBytes <- GoBytes exportedData (C_int (CFDataGetLength exportedData)) ;;
       err <- WriteBytesToFile E outputFilePath dataBytes ;;
       match err with
       | Some msg => ret (Some ("ExportFromKeychain: failed to write into file: " +:+ msg))
       | None => ret None
       end)
      (after w [Call_SecItemExport (item :: items)]).
Proof.
  intros ->. unfold ExportFromKeychain. cbn [default id]. rewrite Hexport.
  unfold bind at 1. unfold call at 1. reflexivity.
Qed.
End ExportFromKeychain_paths.

(** ** The identity resolver *)

(** C10. Whenever [FindIdentity] returns a non-nil error, the slice it
    returns with it is the nil slice. *)
Theorem FindIdentity_error_nil_slice (E : Env) (identityLabel : string) (w w' : World)
    (refs : slice CFTypeRef) (msg : string) :
  FindIdentity E identityLabel w = (Returned (refs, Some msg), w') -> refs = None.
Proof.
  destruct (decide (env_copy_status E = errSecSuccess)) as [Hok|Hko].
  - destruct (env_identities E) as [|d0 rest] eqn:Hids.
    + rewrite (FindIdentity_no_identity _ _ _ Hok Hids). by intros [= <- _].
    + rewrite (FindIdentity_some_identities _ _ _ Hok _ _ Hids).
      destruct (FindIdentity_loop _ _ _ _ _) as [[[r|a]|m|m] w1] eqn:Hloop;
        try by intros [=].
      intros [= -> _]. by destruct (FindIdentity_loop_return _ _ _ _ _ _ _ Hloop).
  - rewrite (FindIdentity_query_failure _ _ _ Hko). by intros [= <- _].
Qed.

Lemma FindIdentity_error_nil_slice_witness :
  exists msg w',
    FindIdentity store_unreadable "Test Cert" empty_world = (Returned (None, Some msg), w').
Proof.
  destruct (FindIdentity store_unreadable "Test Cert" empty_world) as [[[refs [msg|]]|m|m] w']
    eqn:Hrun; try (vm_compute in Hrun; discriminate).
  exists msg, w'. by rewrite (FindIdentity_error_nil_slice _ _ _ _ _ _ Hrun).
Defined.

(** C1 (what the code does instead). The record at index 0 of the result
    array is never looked at: when no record after the first carries the
    label, [FindIdentity] returns an empty slice and a nil error and
    retains nothing, whatever the first record is. *)
Theorem FindIdentity_skips_index_0 (E : Env) (identityLabel : string) (w : World)
    (d0 : CFDictionaryRef) (rest : list CFDictionaryRef) :
  env_copy_status E = errSecSuccess ->
  env_identities E = d0 :: rest ->
  Forall (fun d => exists labl, record_label d = Some labl /\ labl <> identityLabel) rest ->
  FindIdentity E identityLabel w
  = (Returned (Some [], None),
     after w [Call_SecItemCopyMatching; Call_CFRelease (env_resultRefs E);
              Call_CFRelease (env_queryDict E)]).
Proof.
  intros Hok Hids Hrest.
  assert (Hscan : Forall (scannable identityLabel) rest).
  { eapply Forall_impl; [exact Hrest|]. intros d (labl & Hl & Hne).
    exists labl. split; [done|]. intros ?. contradiction. }
  assert (Hnone : matching identityLabel rest = []).
  { apply matching_none. eapply Forall_impl; [exact Hrest|].
    intros d (labl & Hl & Hne). rewrite Hl. congruence. }
  rewrite (FindIdentity_scan _ _ _ Hok _ _ Hids Hscan), Hnone. reflexivity.
Qed.

Lemma FindIdentity_skips_index_0_witness :
  matching "Test Cert" (env_identities store_match_at_0) = [mkIdentity 100]
  /\ FindIdentity store_match_at_0 "Test Cert" empty_world
     = (Returned (Some [], None),
        after empty_world
          [Call_SecItemCopyMatching; Call_CFRelease (env_resultRefs store_match_at_0);
           Call_CFRelease (env_queryDict store_match_at_0)]).
Proof.
  split; [reflexivity|].
  apply (FindIdentity_skips_index_0 store_match_at_0 "Test Cert" empty_world
           (mkRecord 10 "Test Cert" (mkIdentity 100)) [mkRecord 11 "Other" (mkIdentity 101)]).
  - reflexivity.
  - reflexivity.
  - repeat constructor. exists "Other". split; [reflexivity|discriminate].
Defined.

(** The same two records in the other order: the match, now at index 1,
    is found and retained. *)
Example FindIdentity_finds_index_1 :
  FindIdentity store_match_at_1 "Test Cert" empty_world
  = (Returned (Some [Some (mkIdentity 100)], None),
     after empty_world
       [Call_SecItemCopyMatching; Call_CFRetain (Some (mkIdentity 100));
        Call_CFRelease (env_resultRefs store_match_at_1);
        Call_CFRelease (env_queryDict store_match_at_1)]).
Proof. reflexivity. Qed.

(** C2 (as the code has it). When every record reads well, the first
    record does not carry the label and two or more records do,
    [FindIdentity] retains the reference of each of them, releases none
    of them, and returns them all with a nil error; it is [scan] that
    turns such a result down, with its fatal "Multiple matching
    Identities" message. *)
Theorem FindIdentity_returns_every_match (E : Env) (identityLabel : string) (w : World)
    (d0 : CFDictionaryRef) (rest : list CFDictionaryRef)
    (titles : list string) (identityExportRefs : list CFTypeRef) :
  env_copy_status E = errSecSuccess ->
  env_identities E = d0 :: rest ->
  Forall (scannable identityLabel) (d0 :: rest) ->
  record_label d0 <> Some identityLabel ->
  (2 <= length (matching identityLabel (d0 :: rest)))%nat ->
  let refs := Some <$> reverse (matching identityLabel (d0 :: rest)) in
  let cs := [Call_SecItemCopyMatching] ++ (Call_CFRetain <$> refs)
            ++ [Call_CFRelease (env_resultRefs E); Call_CFRelease (env_queryDict E)] in
  FindIdentity E identityLabel w = (Returned (Some refs, None), after w cs)
  /\ retained cs = refs
  /\ released cs = [env_resultRefs E; env_queryDict E]
  /\ scan_identities E (identityLabel :: titles) identityExportRefs w
     = (Exited "Multiple matching Identities found in Keychain! Most likely you have duplicate identity in separate Keychains, like one in System.keychain and one in your Login.keychain",
        after w cs).
Proof.
  intros Hok Hids Hall Hd0 Hmany.
  assert (Hm : matching identityLabel (d0 :: rest) = matching identityLabel rest).
  { unfold matching. cbn. by destruct (decide (record_label d0 = Some identityLabel)). }
  rewrite Hm in *. intros refs cs.
  apply Forall_cons in Hall as [_ Hrest].
  pose proof (FindIdentity_scan E identityLabel w Hok d0 rest Hids Hrest) as Hfind.
  split; [exact Hfind|]. split; [|split].
  - subst cs. rewrite !retained_app, retained_retains. cbn. by rewrite app_nil_r.
  - subst cs. rewrite !released_app, released_retains. reflexivity.
  - rewrite (scan_identities_found _ _ _ _ _ _ _ Hfind).
    rewrite length_fmap, length_reverse.
    destruct (length (matching identityLabel rest)) as [|[|n]] eqn:Hlen; [lia|lia|].
    reflexivity.
Qed.

Lemma FindIdentity_returns_every_match_witness :
  FindIdentity store_duplicates "Test Cert" empty_world
  = (Returned (Some [Some (mkIdentity 102); Some (mkIdentity 101)], None),
     after empty_world
       [Call_SecItemCopyMatching;
        Call_CFRetain (Some (mkIdentity 102)); Call_CFRetain (Some (mkIdentity 101));
        Call_CFRelease (env_resultRefs store_duplicates);
        Call_CFRelease (env_queryDict store_duplicates)]).
Proof.
  refine (proj1 (FindIdentity_returns_every_match store_duplicates "Test Cert" empty_world
            (mkRecord 10 "Other" (mkIdentity 100))
            [mkRecord 11 "Test Cert" (mkIdentity 101); mkRecord 12 "Test Cert" (mkIdentity 102)]
            [] [] _ _ _ _ _)).
  - reflexivity.
  - reflexivity.
  - repeat constructor.
    + exists "Other". split; [reflexivity|discriminate].
    + exists "Test Cert". split; [reflexivity|]. intros _. by eexists.
    + exists "Test Cert". split; [reflexivity|]. intros _. by eexists.
  - vm_compute. discriminate.
  - vm_compute. lia.
Defined.

(** C2 (the claim fails). With two records labelled "Test Cert" after the
    first, the call ends without an error, hands both retained handles
    to its caller and releases neither. *)
Lemma FindIdentity_ambiguous_counterexample :
  let run := FindIdentity store_duplicates "Test Cert" empty_world in
  run.1 = Returned (Some [Some (mkIdentity 102); Some (mkIdentity 101)], None)
  /\ outstanding (calls run.2) = [Some (mkIdentity 102); Some (mkIdentity 101)].
Proof. split; reflexivity. Qed.

(** C3 (what the code does instead). With the query answered, a record
    labelled as asked at index 2 and a record whose label does not read
    at index 1, [FindIdentity] retains the reference of the former, then
    returns the read error of the latter: the retained handle is
    released nowhere and stays outstanding. *)
Theorem FindIdentity_error_leaks_retained (E : Env) (identityLabel : string) (w : World)
    (d0 bad good : CFDictionaryRef) (o : CFObject) :
  env_copy_status E = errSecSuccess ->
  env_identities E = [d0; bad; good] ->
  record_label bad = None ->
  record_label good = Some identityLabel ->
  record_ref good = Some o ->
  env_resultRefs E <> Some o ->
  env_queryDict E <> Some o ->
  let cs := [Call_SecItemCopyMatching; Call_CFRetain (Some o);
             Call_CFRelease (env_resultRefs E); Call_CFRelease (env_queryDict E)] in
  exists err,
    FindIdentity E identityLabel w
    = (Returned (None, Some ("FindIdentity: failed to get 'labl' property: " +:+ err)),
       after w cs)
    /\ outstanding cs = [Some o].
Proof.
  intros Hok Hids Hbad Hgood Href Hrr Hqd cs.
  rewrite (FindIdentity_some_identities _ _ _ Hok _ _ Hids). cbn [length].
  rewrite (loop_match [d0; bad; good] identityLabel 1 good eq_refl o [] _ Hgood Href).
  destruct (loop_label_error [d0; bad; good] identityLabel 0 bad eq_refl
              ([] ++ [Some o])
              (after (after w [Call_SecItemCopyMatching]) [Call_CFRetain (Some o)]) Hbad)
    as (err & _ & ->).
  exists err. split.
  - by rewrite !after_after.
  - change (outstanding cs)
      with (remove_one (env_queryDict E) (remove_one (env_resultRefs E) [Some o])).
    rewrite (remove_one_absent (env_resultRefs E)), (remove_one_absent (env_queryDict E));
      [done| |]; by intros ?%list_elem_of_singleton.
Qed.

Lemma FindIdentity_error_leaks_retained_witness :
  exists err,
    FindIdentity store_unreadable "Test Cert" empty_world
    = (Returned (None, Some ("FindIdentity: failed to get 'labl' property: " +:+ err)),
       after empty_world
         [Call_SecItemCopyMatching; Call_CFRetain (Some (mkIdentity 102));
          Call_CFRelease (env_resultRefs store_unreadable);
          Call_CFRelease (env_queryDict store_unreadable)])
    /\ outstanding
         [Call_SecItemCopyMatching; Call_CFRetain (Some (mkIdentity 102));
          Call_CFRelease (env_resultRefs store_unreadable);
          Call_CFRelease (env_queryDict store_unreadable)]
       = [Some (mkIdentity 102)].
Proof.
  apply (FindIdentity_error_leaks_retained store_unreadable "Test Cert" empty_world
           (mkRecord 10 "Other" (mkIdentity 100)) (<["labl" := None]> ∅)
           (mkRecord 12 "Test Cert" (mkIdentity 102)) (mkIdentity 102));
    try reflexivity; discriminate.
Defined.

(** C5 (as the code has it). With the query answered and no record
    carrying the label (every label reads and differs from it): on an
    empty result array [FindIdentity] returns its "No Identity found"
    error; on a non-empty one it returns an empty slice with a nil
    error, and it is [scan] that ends the run with "No Identity found in
    Keychain!". Either way nothing is retained. *)
Theorem FindIdentity_no_match (E : Env) (identityLabel : string) (w : World)
    (titles : list string) (identityExportRefs : list CFTypeRef) :
  env_copy_status E = errSecSuccess ->
  Forall (fun d => exists labl, record_label d = Some labl /\ labl <> identityLabel)
         (env_identities E) ->
  let cs := [Call_SecItemCopyMatching; Call_CFRelease (env_resultRefs E);
             Call_CFRelease (env_queryDict E)] in
  outstanding cs = []
  /\ match env_identities E with
     | [] =>
       FindIdentity E identityLabel w
       = (Returned (None, Some "No Identity found in your Keychain with the specified Label!"),
          after w cs)
     | _ :: _ =>
       FindIdentity E identityLabel w = (Returned (Some [], None), after w cs)
       /\ scan_identities E (identityLabel :: titles) identityExportRefs w
          = (Exited "No Identity found in Keychain!", after w cs)
     end.
Proof.
  intros Hok Hall cs. split; [by apply outstanding_nothing_retained|].
  destruct (env_identities E) as [|d0 rest] eqn:Hids.
  - by apply FindIdentity_no_identity.
  - apply Forall_cons in Hall as [_ Hrest].
    assert (Hscan : Forall (scannable identityLabel) rest).
    { eapply Forall_impl; [exact Hrest|]. intros d (labl & Hl & Hne).
      exists labl. split; [done|]. intros ?. contradiction. }
    assert (Hnone : matching identityLabel rest = []).
    { apply matching_none. eapply Forall_impl; [exact Hrest|].
      intros d (labl & Hl & Hne). rewrite Hl. congruence. }
    pose proof (FindIdentity_scan E identityLabel w Hok d0 rest Hids Hscan) as Hfind.
    rewrite Hnone in Hfind. split; [exact Hfind|].
    by rewrite (scan_identities_found _ _ _ _ _ _ _ Hfind).
Qed.

Lemma FindIdentity_no_match_witness :
  FindIdentity store_duplicates "Nonexistent" empty_world
  = (Returned (Some [], None),
     after empty_world
       [Call_SecItemCopyMatching; Call_CFRelease (env_resultRefs store_duplicates);
        Call_CFRelease (env_queryDict store_duplicates)])
  /\ scan_identities store_duplicates ["Nonexistent"] [] empty_world
     = (Exited "No Identity found in Keychain!",
        after empty_world
          [Call_SecItemCopyMatching; Call_CFRelease (env_resultRefs store_duplicates);
           Call_CFRelease (env_queryDict store_duplicates)]).
Proof.
  refine (proj2 (FindIdentity_no_match store_duplicates "Nonexistent" empty_world [] [] _ _)).
  - reflexivity.
  - repeat constructor.
    + exists "Other". split; [reflexivity|discriminate].
    + exists "Test Cert". split; [reflexivity|discriminate].
    + exists "Test Cert". split; [reflexivity|discriminate].
Defined.

(** C5 (the claim fails). The store holds three records, none labelled
    "Nonexistent": the call returns an empty slice and a nil error, not
    an error. *)
Lemma FindIdentity_not_found_counterexample :
  matching "Nonexistent" (env_identities store_duplicates) = []
  /\ (FindIdentity store_duplicates "Nonexistent" empty_world).1
     = Returned (Some [], None).
Proof. split; reflexivity. Qed.

(** ** Status codes *)

(** C9. When [SecItemCopyMatching] or [SecItemExport] answers a status
    other than [errSecSuccess], the error handed to the caller ends with
    that status in decimal, and the status reads back from it. *)
Theorem store_failure_reports_status (E : Env) (identityLabel : string)
    (item : CFTypeRef) (items : list CFTypeRef) (outputFilePath : string) (w : World) :
  (env_copy_status E <> errSecSuccess ->
   exists msg w',
     FindIdentity E identityLabel w = (Returned (None, Some msg), w')
     /\ msg = "Failed to call SecItemCopyMatch - OSStatus: " +:+ fmt_d (env_copy_status E)
     /\ status_in "Failed to call SecItemCopyMatch - OSStatus: " msg
        = Some (env_copy_status E))
  /\ ((env_export E (item :: items)).1 <> errSecSuccess ->
      exists msg w',
        ExportFromKeychain E (Some (item :: items)) outputFilePath w = (Returned (Some msg), w')
        /\ msg = "SecItemExport: error (OSStatus): " +:+ fmt_d (env_export E (item :: items)).1
        /\ status_in "SecItemExport: error (OSStatus): " msg
           = Some (env_export E (item :: items)).1).
Proof.
  split.
  - intros Hst. eexists _, _. split; [by apply FindIdentity_query_failure|].
    split; [reflexivity|]. apply status_in_errorf.
  - destruct (env_export E (item :: items)) as [status exportedData] eqn:Hexp.
    intros Hst. eexists _, _.
    split; [exact (ExportFromKeychain_failure _ _ _ _ _ _ _ Hexp Hst)|].
    split; [reflexivity|]. apply status_in_errorf.
Qed.

Lemma store_failure_reports_status_witness :
  (exists msg w',
     FindIdentity store_denied "Test Cert" empty_world = (Returned (None, Some msg), w')
     /\ msg = "Failed to call SecItemCopyMatch - OSStatus: -25293"
     /\ status_in "Failed to call SecItemCopyMatch - OSStatus: " msg = Some (-25293))
  /\ (exists msg w',
     ExportFromKeychain store_denied (Some [Some (mkIdentity 100)]) "Identities.p12" empty_world
     = (Returned (Some msg), w')
     /\ msg = "SecItemExport: error (OSStatus): -25293"
     /\ status_in "SecItemExport: error (OSStatus): " msg = Some (-25293)).
Proof.
  split.
  - apply (proj1 (store_failure_reports_status store_denied "Test Cert"
                    (Some (mkIdentity 100)) [] "Identities.p12" empty_world)).
    discriminate.
  - apply (proj2 (store_failure_reports_status store_denied "Test Cert"
                    (Some (mkIdentity 100)) [] "Identities.p12" empty_world)).
    discriminate.
Defined.

(** ** The archive exporter *)

(** C4 (what the code does instead). On an input without elements, nil
    or empty, [ExportFromKeychain] panics at [&itemRefsToExport[0]]: it
    returns no error value; no call is made, the export primitive
    included. *)
Theorem ExportFromKeychain_empty_panics (E : Env) (outputFilePath : string) (w : World) :
  ExportFromKeychain E None outputFilePath w = (Panicked "index out of range", w)
  /\ ExportFromKeychain E CreateEmptyCFTypeRefSlice outputFilePath w
     = (Panicked "index out of range", w).
Proof. split; reflexivity. Qed.

(** The export primitive is reached on non-empty input only. *)
Lemma ExportFromKeychain_export_called (E : Env) (itemRefsToExport : slice CFTypeRef)
    (outputFilePath : string) (w w' : World) (o : Outcome error) (items : list CFTypeRef) :
  ExportFromKeychain E itemRefsToExport outputFilePath w = (o, w') ->
  Call_SecItemExport items ∈ calls w' ->
  Call_SecItemExport items ∉ calls w ->
  default [] itemRefsToExport <> [].
Proof.
  intros Hrun Hin Hnot Hnil. unfold ExportFromKeychain in Hrun. rewrite Hnil in Hrun.
  unfold panic in Hrun. injection Hrun as _ <-. contradiction.
Qed.

(** C7. When [SecItemExport] answers a status other than
    [errSecSuccess], [ExportFromKeychain] returns an error carrying that
    status; the only call made is the export itself, so the data handle
    is not released and nothing is written: the files are as before. *)
Theorem ExportFromKeychain_export_failure (E : Env) (item : CFTypeRef)
    (items : list CFTypeRef) (outputFilePath : string) (w : World) :
  (env_export E (item :: items)).1 <> errSecSuccess ->
  let run := ExportFromKeychain E (Some (item :: items)) outputFilePath w in
  run.1 = Returned (Some ("SecItemExport: error (OSStatus): "
                          +:+ fmt_d (env_export E (item :: items)).1))
  /\ calls run.2 = calls w ++ [Call_SecItemExport (item :: items)]
  /\ released [Call_SecItemExport (item :: items)] = []
  /\ files run.2 = files w.
Proof.
  destruct (env_export E (item :: items)) as [status exportedData] eqn:Hexp.
  intros Hst run. subst run.
  rewrite (ExportFromKeychain_failure _ _ _ _ _ _ _ Hexp Hst). done.
Qed.

Lemma ExportFromKeychain_export_failure_witness :
  let run := ExportFromKeychain store_denied (Some [Some (mkIdentity 100)])
               "Identities.p12" empty_world in
  run.1 = Returned (Some "SecItemExport: error (OSStatus): -25293")
  /\ calls run.2 = [Call_SecItemExport [Some (mkIdentity 100)]]
  /\ released [Call_SecItemExport [Some (mkIdentity 100)]] = []
  /\ files run.2 = ∅.
Proof.
  apply (ExportFromKeychain_export_failure store_denied (Some (mkIdentity 100)) []
           "Identities.p12" empty_world).
  discriminate.
Defined.

(** A run that returns nil went through export, copy, write and the
    deferred release, in this order; the bytes written are as many as
    the reported length converted to a C int. *)
Lemma ExportFromKeychain_returns_nil (E : Env) (itemRefsToExport : slice CFTypeRef)
    (outputFilePath : string) (w w' : World) :
  ExportFromKeychain E itemRefsToExport outputFilePath w = (Returned None, w') ->
  let exportedData := (env_export E (default [] itemRefsToExport)).2 in
  let n := C_int (CFDataGetLength exportedData) in
  exists dataBytes,
    Z.of_nat (length dataBytes) = n
    /\ w' = {| calls := calls w ++
                  [Call_SecItemExport (default [] itemRefsToExport);
                   Call_GoBytes (Some (data_obj exportedData)) n;
                   Call_WriteBytesToFile outputFilePath dataBytes;
                   Call_CFRelease (Some (data_obj exportedData))];
               files := <[outputFilePath := dataBytes]> (files w) |}.
Proof.
  destruct itemRefsToExport as [[|item items]|];
    [intros Hrun; vm_compute in Hrun; discriminate| |intros Hrun; vm_compute in Hrun; discriminate].
  cbn [default id].
  destruct (env_export E (item :: items)) as [status exportedData] eqn:Hexp.
  destruct (decide (status = errSecSuccess)) as [Hok|Hko].
  2: { rewrite (ExportFromKeychain_failure _ _ _ _ _ _ _ Hexp Hko). intros [=]. }
  rewrite (ExportFromKeychain_exported _ _ _ _ _ _ _ Hexp Hok).
  cbn [snd]. unfold defer, bind.
  destruct (GoBytes exportedData _ _) as [[dataBytes|m|m] w1] eqn:Hbytes;
    [|discriminate..].
  apply GoBytes_length in Hbytes as (Hlen & -> & _).
  unfold WriteBytesToFile, CFRelease, call, ret.
  destruct (env_write_fault E outputFilePath dataBytes) as [[m [part|]]|];
    [discriminate..|].
  cbn [snd]. intros [= <-]. exists dataBytes. split; [done|].
  unfold log_call, after. cbn. by rewrite <- !app_assoc.
Qed.

(** C6 (as the code has it). On a run of [ExportFromKeychain] that
    returns nil, with the data's reported length in the range of a C
    int, the bytes written to the output file are as many as that
    length; the data handle is released once, after the bytes were
    copied and written. *)
Theorem ExportFromKeychain_success (E : Env) (itemRefsToExport : slice CFTypeRef)
    (outputFilePath : string) (w w' : World) :
  ExportFromKeychain E itemRefsToExport outputFilePath w = (Returned None, w') ->
  let exportedData := (env_export E (default [] itemRefsToExport)).2 in
  - 2 ^ 31 <= CFDataGetLength exportedData < 2 ^ 31 ->
  exists dataBytes cs,
    files w' = <[outputFilePath := dataBytes]> (files w)
    /\ Z.of_nat (length dataBytes) = CFDataGetLength exportedData
    /\ calls w' = calls w ++ cs
    /\ cs = [Call_SecItemExport (default [] itemRefsToExport);
             Call_GoBytes (Some (data_obj exportedData)) (CFDataGetLength exportedData);
             Call_WriteBytesToFile outputFilePath dataBytes;
             Call_CFRelease (Some (data_obj exportedData))]
    /\ released cs = [Some (data_obj exportedData)].
Proof.
  intros Hrun exportedData Hrange.
  destruct (ExportFromKeychain_returns_nil _ _ _ _ _ Hrun) as (dataBytes & Hlen & ->).
  fold exportedData in Hlen |- *. rewrite (C_int_small _ Hrange) in *.
  exists dataBytes. eexists. cbn [files calls].
  split; [done|]. split; [done|]. split; [reflexivity|]. split; reflexivity.
Qed.

Lemma ExportFromKeychain_success_witness :
  exists dataBytes,
    files (ExportFromKeychain store_match_at_0 (Some [Some (mkIdentity 100)])
             "Identities.p12" empty_world).2
    = <["Identities.p12" := dataBytes]> ∅
    /\ Z.of_nat (length dataBytes) = 5.
Proof.
  destruct (ExportFromKeychain_success store_match_at_0 (Some [Some (mkIdentity 100)])
              "Identities.p12" empty_world _ eq_refl)
    as (dataBytes & cs & Hfiles & Hlen & _).
  - simpl. lia.
  - exists dataBytes. split; [exact Hfiles|exact Hlen].
Defined.

(** C6 (the claim fails). The exported data reports 2^32 + 3 bytes; the
    conversion to a C int leaves 3; the run returns nil and the file
    holds 3 bytes. *)
Lemma ExportFromKeychain_length_counterexample :
  let run := ExportFromKeychain store_huge_export (Some [Some (mkIdentity 100)])
               "Identities.p12" empty_world in
  CFDataGetLength (env_export store_huge_export [Some (mkIdentity 100)]).2 = 4294967299
  /\ run.1 = Returned None
  /\ length <$> (files run.2 !! "Identities.p12") = Some 3%nat.
Proof. repeat split; vm_compute; reflexivity. Qed.

(** * Further properties of the package *)

(** ** The accessors, layer by layer *)

(** X1. Every answer of [getCFDictValueUTF8String] is accounted for: a
    nil error comes with the UTF-8 string of a string object stored
    under the key; an error comes with the empty string, and its text
    tells which of the four faults occurred (key absent, NULL value,
    value of another type, no UTF-8 pointer). *)
Theorem getCFDictValueUTF8String_outcomes (dict : CFDictionaryRef) (key : string) :
  match getCFDictValueUTF8String dict key with
  | (s, None) =>
    exists o, dict !! key = Some (Some o) /\ CFGetTypeID o = CFStringGetTypeID
              /\ CFStringGetCStringPtr o = Some s
  | (s, Some err) =>
    s = ""
    /\ ((dict !! key = None /\ err = "getCFDictValueRef: Key doesn't exist")
        \/ (dict !! key = Some None
            /\ err = "getCFDictValueCFStringRef: Nil value returned")
        \/ (exists o, dict !! key = Some (Some o) /\ CFGetTypeID o <> CFStringGetTypeID
            /\ err = "getCFDictValueCFStringRef: value is not a string")
        \/ (exists o, dict !! key = Some (Some o) /\ CFGetTypeID o = CFStringGetTypeID
            /\ CFStringGetCStringPtr o = None
            /\ err = "getCFDictValueUTF8String: failed to convert value to string"))
  end.
Proof.
  unfold getCFDictValueUTF8String, getCFDictValueCFStringRef, getCFDictValueRef,
    CFDictionaryGetValueIfPresent, CFDictionaryGetValue.
  destruct (dict !! key) as [[o|]|] eqn:Hk; simpl.
  - destruct (CFGetTypeID o =? CFStringGetTypeID)%N eqn:Hty; simpl.
    + apply N.eqb_eq in Hty.
      destruct (CFStringGetCStringPtr o) as [c|] eqn:Hptr.
      * by exists o.
      * split; [done|]. do 3 right. by exists o.
    + apply N.eqb_neq in Hty. split; [done|]. do 2 right. left. by exists o.
  - split; [done|]. right. left. done.
  - split; [done|]. left. done.
Qed.

(** X2. An error of a lower accessor goes up unchanged: what
    [getCFDictValueRef] reports is what [getCFDictValueCFStringRef]
    reports, and what that one reports is what
    [getCFDictValueUTF8String] reports; in particular an absent key
    gives the same "Key doesn't exist" error at the three layers, with
    a nil (or empty) value. *)
Theorem accessor_errors_propagate (dict : CFDictionaryRef) (key err : string) :
  ((getCFDictValueRef dict key).2 = Some err ->
   getCFDictValueCFStringRef dict key = (None, Some err))
  /\ ((getCFDictValueCFStringRef dict key).2 = Some err ->
      getCFDictValueUTF8String dict key = ("", Some err))
  /\ (dict !! key = None ->
      getCFDictValueRef dict key = (None, Some "getCFDictValueRef: Key doesn't exist")
      /\ getCFDictValueCFStringRef dict key
         = (None, Some "getCFDictValueRef: Key doesn't exist")
      /\ getCFDictValueUTF8String dict key
         = ("", Some "getCFDictValueRef: Key doesn't exist")).
Proof.
  split; [|split].
  - unfold getCFDictValueCFStringRef.
    destruct (getCFDictValueRef dict key) as [val [e|]]; simpl; [|discriminate].
    by intros [= ->].
  - unfold getCFDictValueUTF8String.
    destruct (getCFDictValueCFStringRef dict key) as [val [e|]]; simpl; [|discriminate].
    by intros [= ->].
  - intros Hk.
    unfold getCFDictValueUTF8String, getCFDictValueCFStringRef, getCFDictValueRef,
      CFDictionaryGetValueIfPresent, CFDictionaryGetValue.
    rewrite Hk. done.
Qed.

Lemma accessor_errors_propagate_witness :
  getCFDictValueCFStringRef (<["labl" := Some (mkIdentity 5)]> ∅) "v_Ref"
    = (None, Some "getCFDictValueRef: Key doesn't exist")
  /\ getCFDictValueUTF8String (<["labl" := Some (mkIdentity 5)]> ∅) "labl"
    = ("", Some "getCFDictValueCFStringRef: value is not a string")
  /\ getCFDictValueUTF8String (<["labl" := Some (mkIdentity 5)]> ∅) "v_Ref"
    = ("", Some "getCFDictValueRef: Key doesn't exist").
Proof.
  split; [|split].
  - apply (proj1 (accessor_errors_propagate (<["labl" := Some (mkIdentity 5)]> ∅)
                    "v_Ref" "getCFDictValueRef: Key doesn't exist")).
    reflexivity.
  - apply (proj1 (proj2 (accessor_errors_propagate (<["labl" := Some (mkIdentity 5)]> ∅)
                    "labl" "getCFDictValueCFStringRef: value is not a string"))).
    reflexivity.
  - assert (Hk : (<["labl" := Some (mkIdentity 5)]> ∅ : CFDictionaryRef) !! "v_Ref" = None)
      by reflexivity.
    exact (proj2 (proj2 (proj2 (proj2 (accessor_errors_propagate _ "v_Ref" "")) Hk))).
Defined.

(** ** Releasing *)





(** ** FindIdentity on any store *)

Lemma FindIdentity_loop_S (arr : list CFDictionaryRef) (identityLabel : string)
    (j : nat) (acc : list CFTypeRef) :
  FindIdentity_loop arr identityLabel (S j) acc
  = match arr !! S j with
    | None => exit "CFArrayGetValueAtIndex: index out of range"
    | Some aIdentityDictRef =>
      match getCFDictValueUTF8String aIdentityDictRef "labl" with
      | (_, Some err) =>
        ret (Return (None, Some ("FindIdentity: failed to get 'labl' property: " +:+ err)))
      | (labl, None) =>
        if negb (String.eqb labl identityLabel)
        then FindIdentity_loop arr identityLabel j acc
        else
          match getCFDictValueRef aIdentityDictRef "v_Ref" with
          | (_, Some err) =>
            ret (Return (None, Some ("FindIdentity: failed to get 'v_Ref' property: " +:+ err)))
          | (vrefRef, None) =>
            vrefRef <- CFRetain vrefRef ;;
            FindIdentity_loop arr identityLabel j (acc ++ [vrefRef])
          end
      end
    end.
Proof. reflexivity. Qed.

(** What the loop does to the world, however it ends: it retains
    non-NULL handles, and nothing else; left normally, it has appended
    exactly these to the accumulator. *)
Lemma FindIdentity_loop_log (arr : list CFDictionaryRef) (identityLabel : string)
    (i : nat) (acc : list CFTypeRef) (w : World) :
  exists hs,
    (FindIdentity_loop arr identityLabel i acc w).2 = after w (Call_CFRetain <$> hs)
    /\ Forall is_Some hs
    /\ (forall msg, (FindIdentity_loop arr identityLabel i acc w).1 <> Panicked msg)
    /\ (forall acc', (FindIdentity_loop arr identityLabel i acc w).1 = Returned (Next acc') ->
                     acc' = acc ++ hs).
Proof.
  revert acc w. induction i as [|j IH]; intros acc w.
  - exists []. cbn. rewrite after_nil, app_nil_r.
    repeat split; [constructor|discriminate|by intros ? [= <-]].
  - rewrite FindIdentity_loop_S.
    assert (Hstop : forall o : Outcome (Flow (slice CFTypeRef * error) (list CFTypeRef)),
               (forall msg, o <> Panicked msg) -> (forall acc', o <> Returned (Next acc')) ->
               exists hs, (o, w).2 = after w (Call_CFRetain <$> hs) /\ Forall is_Some hs
                 /\ (forall msg, (o, w).1 <> Panicked msg)
                 /\ (forall acc', (o, w).1 = Returned (Next acc') -> acc' = acc ++ hs)).
    { intros o Hp Hn. exists []. cbn. rewrite after_nil.
      repeat split; [constructor|exact Hp|]. intros acc' Hacc. by destruct (Hn acc'). }
    destruct (arr !! S j) as [d|]; [|by apply Hstop].
    destruct (getCFDictValueUTF8String d "labl") as [labl [err|]]; [by apply Hstop|].
    destruct (negb (labl =? identityLabel)%string); [apply IH|].
    destruct (getCFDictValueRef d "v_Ref") as [vrefRef [err|]]; [by apply Hstop|].
    destruct vrefRef as [o|]; [|by apply Hstop].
    unfold CFRetain, bind, call, ret. rewrite log_call_after.
    destruct (IH (acc ++ [Some o]) (after w [Call_CFRetain (Some o)]))
      as (hs & Hw & Hsome & Hpanic & Hnext).
    exists (Some o :: hs). rewrite Hw, after_after.
    repeat split; [by constructor|exact Hpanic|].
    intros acc' Hacc. rewrite (Hnext _ Hacc), <- app_assoc. reflexivity.
Qed.

(** Leaving the loop normally means every record gone through read
    well. *)
Lemma FindIdentity_loop_next_scannable (identityLabel : string) (d0 : CFDictionaryRef)
    (rest extra : list CFDictionaryRef) (acc acc' : list CFTypeRef) (w w' : World) :
  FindIdentity_loop (d0 :: rest ++ extra) identityLabel (length rest) acc w
  = (Returned (Next acc'), w') ->
  Forall (scannable identityLabel) rest.
Proof.
  revert extra acc w.
  induction rest as [|x rest IH] using rev_ind; intros extra acc w; [constructor|].
  rewrite length_app, Nat.add_1_r, <- app_assoc, FindIdentity_loop_S.
  replace ((d0 :: rest ++ [x] ++ extra) !! S (length rest)) with (Some x)
    by (symmetry; exact (list_lookup_middle rest extra x (length rest) eq_refl)).
  destruct (getCFDictValueUTF8String x "labl") as [labl [err|]] eqn:Hlabl; [discriminate|].
  assert (Hl : record_label x = Some labl) by (unfold record_label; by rewrite Hlabl).
  destruct (String.eqb_spec labl identityLabel) as [->|Hne]; cbn [negb].
  - destruct (getCFDictValueRef x "v_Ref") as [[o|] [err|]] eqn:Href; try discriminate.
    unfold CFRetain, bind, call, ret. intros Hrun.
    apply Forall_app. split; [exact (IH _ _ _ Hrun)|].
    apply Forall_singleton. exists identityLabel. split; [done|]. intros _.
    exists o. unfold record_ref. by rewrite Href.
  - intros Hrun. apply Forall_app. split; [exact (IH _ _ _ Hrun)|].
    apply Forall_singleton. exists labl. split; [done|]. intros ?. contradiction.
Qed.

(** The shape of the call log of [FindIdentity], however it ends. *)
Lemma FindIdentity_run_shape (E : Env) (identityLabel : string) (w : World) :
  let run := FindIdentity E identityLabel w in
  exists hs tail,
    run.2 = after w ([Call_SecItemCopyMatching] ++ (Call_CFRetain <$> hs) ++ tail)
    /\ Forall is_Some hs
    /\ (forall msg, run.1 <> Panicked msg)
    /\ (tail = [] \/ tail = [Call_CFRelease (env_queryDict E)]
        \/ tail = [Call_CFRelease (env_resultRefs E); Call_CFRelease (env_queryDict E)])
    /\ (forall refs, run.1 = Returned (Some refs, None) ->
          refs = hs
          /\ tail = [Call_CFRelease (env_resultRefs E); Call_CFRelease (env_queryDict E)]).
Proof.
  cbn zeta.
  destruct (decide (env_copy_status E = errSecSuccess)) as [Hok|Hko].
  - destruct (env_identities E) as [|d0 rest] eqn:Hids.
    + rewrite (FindIdentity_no_identity _ _ _ Hok Hids).
      exists [], [Call_CFRelease (env_resultRefs E); Call_CFRelease (env_queryDict E)].
      split_and!; [reflexivity|constructor|discriminate|by right; right|discriminate].
    + rewrite (FindIdentity_some_identities _ _ _ Hok _ _ Hids).
      destruct (FindIdentity_loop_log (d0 :: rest) identityLabel (length rest) []
                  (after w [Call_SecItemCopyMatching])) as (hs & Hw & Hsome & Hpanic & Hnext).
      destruct (FindIdentity_loop _ _ _ _ _) as [[[r|a]|m|m] w1] eqn:Hloop;
        cbn [fst snd] in *; subst w1; rewrite ?after_after.
      * exists hs, [Call_CFRelease (env_resultRefs E); Call_CFRelease (env_queryDict E)].
        destruct (FindIdentity_loop_return _ _ _ _ _ _ _ Hloop) as [Hnil _].
        split_and!; [reflexivity|done|discriminate|by right; right|].
        intros refs [= Hr]. rewrite Hr in Hnil. discriminate.
      * exists hs, [Call_CFRelease (env_resultRefs E); Call_CFRelease (env_queryDict E)].
        split_and!; [reflexivity|done|discriminate|by right; right|].
        intros refs [= <-]. by rewrite (Hnext a eq_refl).
      * by destruct (Hpanic m).
      * exists hs, []. rewrite app_nil_r.
        split_and!; [reflexivity|done|discriminate|by left|discriminate].
  - rewrite (FindIdentity_query_failure _ _ _ Hko).
    exists [], [Call_CFRelease (env_queryDict E)].
    split_and!; [reflexivity|constructor|discriminate|by right; left|discriminate].
Qed.

(** X4. Whatever the store answers, [FindIdentity] never panics and
    writes no file; it queries the store once, retains only non-NULL
    handles, and the only objects it releases are its query dictionary
    and the result array (or nothing at all). When it returns a nil
    error, the slice returned holds exactly the handles it retained, in
    the order it retained them, and both containers were released. *)
Theorem FindIdentity_log (E : Env) (identityLabel : string) (w : World) :
  let run := FindIdentity E identityLabel w in
  exists hs tail,
    run.2 = after w ([Call_SecItemCopyMatching] ++ (Call_CFRetain <$> hs) ++ tail)
    /\ Forall is_Some hs
    /\ (forall msg, run.1 <> Panicked msg)
    /\ (tail = [] \/ tail = [Call_CFRelease (env_queryDict E)]
        \/ tail = [Call_CFRelease (env_resultRefs E); Call_CFRelease (env_queryDict E)])
    /\ (forall refs, run.1 = Returned (Some refs, None) ->
          refs = hs
          /\ tail = [Call_CFRelease (env_resultRefs E); Call_CFRelease (env_queryDict E)]).
Proof. exact (FindIdentity_run_shape E identityLabel w). Qed.

(** What a nil error of [FindIdentity] tells about the store. *)
Lemma FindIdentity_nil_error_inv (E : Env) (identityLabel : string) (w w' : World)
    (refs : slice CFTypeRef) :
  FindIdentity E identityLabel w = (Returned (refs, None), w') ->
  env_copy_status E = errSecSuccess
  /\ exists d0 rest,
       env_identities E = d0 :: rest
       /\ Forall (scannable identityLabel) rest
       /\ refs = Some (Some <$> reverse (matching identityLabel rest)).
Proof.
  destruct (decide (env_copy_status E = errSecSuccess)) as [Hok|Hko].
  2: { rewrite (FindIdentity_query_failure _ _ _ Hko). intros [=]. }
  destruct (env_identities E) as [|d0 rest] eqn:Hids.
  { rewrite (FindIdentity_no_identity _ _ _ Hok Hids). intros [=]. }
  intros Hrun. split; [exact Hok|]. exists d0, rest. split; [reflexivity|].
  assert (Hscan : Forall (scannable identityLabel) rest).
  { revert Hrun. rewrite (FindIdentity_some_identities _ _ _ Hok _ _ Hids).
    destruct (FindIdentity_loop _ _ _ _ _) as [[[r|a]|m|m] w1] eqn:Hloop; try discriminate.
    - destruct (FindIdentity_loop_return _ _ _ _ _ _ _ Hloop) as [_ [e He]].
      intros [= Hr _]. rewrite Hr in He. discriminate.
    - intros _.
      apply (FindIdentity_loop_next_scannable identityLabel d0 rest [] [] a
               (after w [Call_SecItemCopyMatching]) w1).
      by rewrite app_nil_r. }
  split; [exact Hscan|].
  rewrite (FindIdentity_scan _ _ _ Hok _ _ Hids Hscan) in Hrun. by injection Hrun as <- _.
Qed.

(** X5. A nil error from [FindIdentity] is the whole story of the scan:
    the query succeeded, the result array was not empty, every record
    after the first read well, and the slice returned holds the
    references of exactly the records after the first that carry the
    label, from the last one to the first one. *)
Theorem FindIdentity_success_exact (E : Env) (identityLabel : string) (w w' : World)
    (refs : slice CFTypeRef) :
  FindIdentity E identityLabel w = (Returned (refs, None), w') ->
  env_copy_status E = errSecSuccess
  /\ exists d0 rest,
       env_identities E = d0 :: rest
       /\ Forall (scannable identityLabel) rest
       /\ refs = Some (Some <$> reverse (matching identityLabel rest)).
Proof. apply FindIdentity_nil_error_inv. Qed.

Lemma FindIdentity_success_exact_witness :
  exists d0 rest,
    env_identities store_duplicates = d0 :: rest
    /\ Forall (scannable "Test Cert") rest
    /\ Some [Some (mkIdentity 102); Some (mkIdentity 101)]
       = Some (Some <$> reverse (matching "Test Cert" rest)).
Proof.
  exact (proj2 (FindIdentity_success_exact store_duplicates "Test Cert" empty_world
                  (FindIdentity store_duplicates "Test Cert" empty_world).2
                  (Some [Some (mkIdentity 102); Some (mkIdentity 101)]) eq_refl)).
Defined.

(** ** Retain and release, together *)

Lemma remove_one_head (cf : CFTypeRef) (held : list CFTypeRef) :
  remove_one cf (cf :: held) = held.
Proof. cbn. by destruct (decide (cf = cf)). Qed.







(** ** ExportFromKeychain on any input *)

(** The whole run after an export that succeeded. *)
Lemma ExportFromKeychain_after_export (E : Env) (item : CFTypeRef) (items : list CFTypeRef)
    (outputFilePath : string) (w : World) (exportedData : CFData) :
  env_export E (item :: items) = (errSecSuccess, exportedData) ->
  let n := C_int (CFDataGetLength exportedData) in
  let dataBytes := CFDataGetBytePtr exportedData <$> seqZ 0 n in
  let copied := [Call_SecItemExport (item :: items);
                 Call_GoBytes (Some (data_obj exportedData)) n;
                 Call_WriteBytesToFile outputFilePath dataBytes;
                 Call_CFRelease (Some (data_obj exportedData))] in
  ExportFromKeychain E (Some (item :: items)) outputFilePath w
  = if n <? 0
    then (Panicked "gobytes: length out of range",
          after w [Call_SecItemExport (item :: items);
                   Call_CFRelease (Some (data_obj exportedData))])
    else
      match env_write_fault E outputFilePath dataBytes with
      | None =>
        (Returned None,
         {| calls := calls w ++ copied; files := <[outputFilePath := dataBytes]> (files w) |})
      | Some (msg, None) =>
        (Returned (Some ("ExportFromKeychain: failed to write into file: " +:+ msg)),
         after w copied)
      | Some (msg, Some part) =>
        (Returned (Some ("ExportFromKeychain: failed to write into file: " +:+ msg)),
         {| calls := calls w ++ copied; files := <[outputFilePath := part]> (files w) |})
      end.
Proof.
  intros Hexp n dataBytes copied.
  rewrite (ExportFromKeychain_exported _ _ _ _ _ _ _ Hexp eq_refl).
  unfold defer, GoBytes. fold n.
  destruct (n <? 0).
  - unfold bind, panic, CFRelease, call. cbn [snd]. by rewrite log_call_after, after_after.
  - unfold bind, call, ret, WriteBytesToFile, CFRelease, call, log_call, after.
    cbn [fst snd calls files]. fold dataBytes.
    destruct (env_write_fault E outputFilePath dataBytes) as [[msg [part|]]|];
      cbn [fst snd calls files]; by rewrite <- !app_assoc.
Qed.



(** X8. [ExportFromKeychain] leaves every file other than the output
    file as it was, on every input and however it ends. *)
Theorem ExportFromKeychain_other_files (E : Env) (itemRefsToExport : slice CFTypeRef)
    (outputFilePath other : string) (w : World) :
  other <> outputFilePath ->
  files (ExportFromKeychain E itemRefsToExport outputFilePath w).2 !! other
  = files w !! other.
Proof.
  intros Hne.
  destruct itemRefsToExport as [[|item items]|]; [reflexivity| |reflexivity].
  destruct (env_export E (item :: items)) as [status exportedData] eqn:Hexp.
  destruct (decide (status = errSecSuccess)) as [->|Hko].
  - rewrite (ExportFromKeychain_after_export _ _ _ _ _ _ Hexp).
    destruct (_ <? 0); [reflexivity|].
    destruct (env_write_fault E outputFilePath _) as [[msg [part|]]|]; cbn [snd files];
      [by apply lookup_insert_ne|reflexivity|by apply lookup_insert_ne].
  - by rewrite (ExportFromKeychain_failure _ _ _ _ _ _ _ Hexp Hko).
Qed.

Lemma ExportFromKeychain_other_files_witness :
  files (ExportFromKeychain store_match_at_0 (Some [Some (mkIdentity 100)])
           "Identities.p12" {| calls := []; files := <["notes.txt" := [x41]]> ∅ |}).2
    !! "notes.txt"
  = Some [x41].
Proof.
  rewrite (ExportFromKeychain_other_files store_match_at_0 (Some [Some (mkIdentity 100)])
             "Identities.p12" "notes.txt"); [reflexivity|discriminate].
Defined.

(** X9. When [ExportFromKeychain] returns nil, the output file holds
    the bytes of the exported data, in order, from the first one up to
    the reported length converted to a C int: all of them when that
    length is in the range of a C int. *)
Theorem ExportFromKeychain_file_content (E : Env) (itemRefsToExport : slice CFTypeRef)
    (outputFilePath : string) (w w' : World) :
  ExportFromKeychain E itemRefsToExport outputFilePath w = (Returned None, w') ->
  let exportedData := (env_export E (default [] itemRefsToExport)).2 in
  files w' !! outputFilePath
  = Some (CFDataGetBytePtr exportedData <$> seqZ 0 (C_int (CFDataGetLength exportedData)))
  /\ (- 2 ^ 31 <= CFDataGetLength exportedData < 2 ^ 31 ->
      files w' !! outputFilePath
      = Some (CFDataGetBytePtr exportedData <$> seqZ 0 (CFDataGetLength exportedData))).
Proof.
  destruct itemRefsToExport as [[|item items]|]; [discriminate| |discriminate].
  cbn [default id].
  destruct (env_export E (item :: items)) as [status exportedData] eqn:Hexp.
  destruct (decide (status = errSecSuccess)) as [->|Hko].
  2: { rewrite (ExportFromKeychain_failure _ _ _ _ _ _ _ Hexp Hko). discriminate. }
  rewrite (ExportFromKeychain_after_export _ _ _ _ _ _ Hexp). cbn [snd].
  destruct (_ <? 0); [discriminate|].
  destruct (env_write_fault E outputFilePath _) as [[msg [part|]]|]; [discriminate..|].
  intros [= <-]. cbn [files]. split.
  - apply lookup_insert_eq.
  - intros Hrange. rewrite lookup_insert_eq. by rewrite (C_int_small _ Hrange).
Qed.

Lemma ExportFromKeychain_file_content_witness :
  files (ExportFromKeychain store_match_at_0 (Some [Some (mkIdentity 100)])
           "Identities.p12" empty_world).2 !! "Identities.p12"
  = Some [x00; x00; x00; x00; x00].
Proof.
  exact (proj1 (ExportFromKeychain_file_content store_match_at_0
                  (Some [Some (mkIdentity 100)]) "Identities.p12" empty_world
                  (ExportFromKeychain store_match_at_0 (Some [Some (mkIdentity 100)])
                     "Identities.p12" empty_world).2 eq_refl)).
Defined.

(** X10. When the write to the output file fails,
    [ExportFromKeychain] returns an error that carries the text of the
    write error; the exported data is still released once, and the
    output file is whatever the failed write left there. *)
Theorem ExportFromKeychain_write_failure (E : Env) (item : CFTypeRef)
    (items : list CFTypeRef) (outputFilePath : string) (w : World) (exportedData : CFData)
    (msg : string) (left : option (list byte)) :
  env_export E (item :: items) = (errSecSuccess, exportedData) ->
  0 <= C_int (CFDataGetLength exportedData) ->
  env_write_fault E outputFilePath
    (CFDataGetBytePtr exportedData <$> seqZ 0 (C_int (CFDataGetLength exportedData)))
  = Some (msg, left) ->
  let run := ExportFromKeychain E (Some (item :: items)) outputFilePath w in
  run.1 = Returned (Some ("ExportFromKeychain: failed to write into file: " +:+ msg))
  /\ files run.2 = match left with
                   | Some part => <[outputFilePath := part]> (files w)
                   | None => files w
                   end
  /\ exists cs, calls run.2 = calls w ++ cs
                /\ released cs = [Some (data_obj exportedData)].
Proof.
  intros Hexp Hlen Hfault run. subst run.
  rewrite (ExportFromKeychain_after_export _ _ _ _ _ _ Hexp).
  apply Z.ltb_ge in Hlen. rewrite Hlen, Hfault.
  destruct left as [part|]; (split_and!; [reflexivity|reflexivity|]);
    eexists; split; reflexivity.
Qed.

Lemma ExportFromKeychain_write_failure_witness :
  let run := ExportFromKeychain store_disk_full (Some [Some (mkIdentity 100)])
               "Identities.p12" empty_world in
  run.1 = Returned (Some "ExportFromKeychain: failed to write into file: no space left on device")
  /\ files run.2 = <["Identities.p12" := [x00; x00]]> ∅.
Proof.
  destruct (ExportFromKeychain_write_failure store_disk_full (Some (mkIdentity 100)) []
              "Identities.p12" empty_world (mkData 900 5)
              "no space left on device" (Some [x00; x00]) eq_refl)
    as (Hres & Hfiles & _).
  - discriminate.
  - reflexivity.
  - split; [exact Hres|exact Hfiles].
Defined.

(** X11. [ExportFromKeychain] returns nil exactly when the input has an
    element, [SecItemExport] answers [errSecSuccess], the reported
    length converted to a C int is not negative and the write goes
    through. *)
Theorem ExportFromKeychain_nil_iff (E : Env) (itemRefsToExport : slice CFTypeRef)
    (outputFilePath : string) (w : World) :
  (ExportFromKeychain E itemRefsToExport outputFilePath w).1 = Returned None
  <-> exists item items exportedData,
        itemRefsToExport = Some (item :: items)
        /\ env_export E (item :: items) = (errSecSuccess, exportedData)
        /\ 0 <= C_int (CFDataGetLength exportedData)
        /\ env_write_fault E outputFilePath
             (CFDataGetBytePtr exportedData
                <$> seqZ 0 (C_int (CFDataGetLength exportedData))) = None.
Proof.
  split.
  - destruct itemRefsToExport as [[|item items]|]; [discriminate| |discriminate].
    destruct (env_export E (item :: items)) as [status exportedData] eqn:Hexp.
    destruct (decide (status = errSecSuccess)) as [->|Hko].
    2: { rewrite (ExportFromKeychain_failure _ _ _ _ _ _ _ Hexp Hko). discriminate. }
    rewrite (ExportFromKeychain_after_export _ _ _ _ _ _ Hexp).
    destruct (_ <? 0) eqn:Hn; [discriminate|]. apply Z.ltb_ge in Hn.
    destruct (env_write_fault E outputFilePath _) as [[msg [part|]]|] eqn:Hfault;
      [discriminate..|].
    intros _. by exists item, items, exportedData.
  - intros (item & items & exportedData & -> & Hexp & Hn & Hfault).
    rewrite (ExportFromKeychain_after_export _ _ _ _ _ _ Hexp).
    apply Z.ltb_ge in Hn. by rewrite Hn, Hfault.
Qed.

(** X12. When the exported data reports a length from 2^31 up to
    2^32 - 1, its conversion to a C int is negative:
    [ExportFromKeychain] panics while copying, writes no file, and its
    deferred call still releases the data. *)
Theorem ExportFromKeychain_length_overflow (E : Env) (item : CFTypeRef)
    (items : list CFTypeRef) (outputFilePath : string) (w : World) (exportedData : CFData) :
  env_export E (item :: items) = (errSecSuccess, exportedData) ->
  2 ^ 31 <= CFDataGetLength exportedData < 2 ^ 32 ->
  ExportFromKeychain E (Some (item :: items)) outputFilePath w
  = (Panicked "gobytes: length out of range",
     after w [Call_SecItemExport (item :: items);
              Call_CFRelease (Some (data_obj exportedData))]).
Proof.
  intros Hexp Hrange. rewrite (ExportFromKeychain_after_export _ _ _ _ _ _ Hexp).
  assert (Hneg : (C_int (CFDataGetLength exportedData) <? 0) = true).
  { apply Z.ltb_lt. unfold C_int.
    replace (CFDataGetLength exportedData + 2 ^ 31)
      with (CFDataGetLength exportedData - 2 ^ 31 + 1 * 2 ^ 32) by lia.
    rewrite Z_mod_plus_full, Z.mod_small; lia. }
  by rewrite Hneg.
Qed.

Lemma ExportFromKeychain_length_overflow_witness :
  ExportFromKeychain (mkEnv 0 [] 0 (mkData 900 (2 ^ 31)))
    (Some [Some (mkIdentity 100)]) "Identities.p12" empty_world
  = (Panicked "gobytes: length out of range",
     after empty_world [Call_SecItemExport [Some (mkIdentity 100)];
                        Call_CFRelease (Some (data_obj (mkData 900 (2 ^ 31))))]).
Proof.
  apply (ExportFromKeychain_length_overflow (mkEnv 0 [] 0 (mkData 900 (2 ^ 31)))
           (Some (mkIdentity 100)) [] "Identities.p12" empty_world (mkData 900 (2 ^ 31)));
    [reflexivity|simpl; lia].
Defined.

(** ** The errors of FindIdentity *)

(** An early [return] of the loop names the record that caused it. *)
Lemma FindIdentity_loop_return_cause (arr : list CFDictionaryRef) (identityLabel : string)
    (i : nat) (acc : list CFTypeRef) (w w' : World) (r : slice CFTypeRef * error) :
  FindIdentity_loop arr identityLabel i acc w = (Returned (Return r), w') ->
  exists j d,
    (1 <= j <= i)%nat /\ arr !! j = Some d
    /\ ((exists err, (getCFDictValueUTF8String d "labl").2 = Some err
                     /\ r.2 = Some ("FindIdentity: failed to get 'labl' property: " +:+ err))
        \/ (record_label d = Some identityLabel /\ d !! "v_Ref" = None
            /\ r.2 = Some "FindIdentity: failed to get 'v_Ref' property: getCFDictValueRef: Key doesn't exist")).
Proof.
  revert acc w. induction i as [|j IH]; intros acc w; [discriminate|].
  rewrite FindIdentity_loop_S.
  assert (Hup : forall acc0 w0,
             FindIdentity_loop arr identityLabel j acc0 w0 = (Returned (Return r), w') ->
             exists k d, (1 <= k <= S j)%nat /\ arr !! k = Some d
               /\ ((exists err, (getCFDictValueUTF8String d "labl").2 = Some err
                      /\ r.2 = Some ("FindIdentity: failed to get 'labl' property: " +:+ err))
                   \/ (record_label d = Some identityLabel /\ d !! "v_Ref" = None
                       /\ r.2 = Some "FindIdentity: failed to get 'v_Ref' property: getCFDictValueRef: Key doesn't exist"))).
  { intros acc0 w0 Hrun. destruct (IH _ _ Hrun) as (k & d & Hk & Hd & Hcause).
    exists k, d. split; [lia|]. split; [exact Hd|exact Hcause]. }
  destruct (arr !! S j) as [d|] eqn:Hd; [|discriminate].
  destruct (getCFDictValueUTF8String d "labl") as [labl [err|]] eqn:Hlabl.
  { intros [= <- _]. exists (S j), d. split; [lia|]. split; [exact Hd|].
    left. exists err. by rewrite Hlabl. }
  destruct (String.eqb_spec labl identityLabel) as [->|Hne]; cbn [negb]; [|apply Hup].
  destruct (getCFDictValueRef d "v_Ref") as [vrefRef [err|]] eqn:Href.
  { intros [= <- _]. exists (S j), d. split; [lia|]. split; [exact Hd|]. right.
    revert Href. unfold getCFDictValueRef, CFDictionaryGetValueIfPresent, record_label.
    rewrite Hlabl. destruct (d !! "v_Ref"); [discriminate|]. by intros [= _ <-]. }
  destruct vrefRef as [o|]; [|discriminate].
  unfold CFRetain, bind, call, ret. apply Hup.
Qed.

(** X13. An error returned by [FindIdentity] tells which step failed:
    the query (with its status), an empty result array, the label of a
    record after the first (with the accessor's own error), or the
    missing reference of a record that carries the label. *)
Theorem FindIdentity_error_cause (E : Env) (identityLabel : string) (w w' : World)
    (refs : slice CFTypeRef) (msg : string) :
  FindIdentity E identityLabel w = (Returned (refs, Some msg), w') ->
  (env_copy_status E <> errSecSuccess
   /\ msg = "Failed to call SecItemCopyMatch - OSStatus: " +:+ fmt_d (env_copy_status E))
  \/ (env_copy_status E = errSecSuccess /\ env_identities E = []
      /\ msg = "No Identity found in your Keychain with the specified Label!")
  \/ (env_copy_status E = errSecSuccess
      /\ exists j d,
           (1 <= j)%nat /\ env_identities E !! j = Some d
           /\ ((exists err, (getCFDictValueUTF8String d "labl").2 = Some err
                  /\ msg = "FindIdentity: failed to get 'labl' property: " +:+ err)
               \/ (record_label d = Some identityLabel /\ d !! "v_Ref" = None
                   /\ msg = "FindIdentity: failed to get 'v_Ref' property: getCFDictValueRef: Key doesn't exist"))).
Proof.
  destruct (decide (env_copy_status E = errSecSuccess)) as [Hok|Hko].
  - destruct (env_identities E) as [|d0 rest] eqn:Hids.
    + rewrite (FindIdentity_no_identity _ _ _ Hok Hids). intros [= _ <- _].
      right. left. done.
    + rewrite (FindIdentity_some_identities _ _ _ Hok _ _ Hids).
      destruct (FindIdentity_loop _ _ _ _ _) as [[[r|a]|m|m] w1] eqn:Hloop;
        try discriminate.
      intros [= -> _]. right. right. split; [exact Hok|].
      destruct (FindIdentity_loop_return_cause _ _ _ _ _ _ _ Hloop)
        as (j & d & Hj & Hd & Hcause).
      exists j, d. split; [lia|]. split; [exact Hd|].
      destruct Hcause as [(err & Herr & Hmsg)|(Hl & Hr & Hmsg)].
      * left. exists err. split; [exact Herr|]. cbn in Hmsg. by injection Hmsg as ->.
      * right. split_and!; [exact Hl|exact Hr|]. cbn in Hmsg. by injection Hmsg as ->.
  - rewrite (FindIdentity_query_failure _ _ _ Hko). intros [= _ <- _]. left. done.
Qed.

Lemma FindIdentity_error_cause_witness :
  exists j d,
    (1 <= j)%nat /\ env_identities store_unreadable !! j = Some d
    /\ (getCFDictValueUTF8String d "labl").2
       = Some "getCFDictValueCFStringRef: Nil value returned".
Proof.
  destruct (FindIdentity_error_cause store_unreadable "Test Cert" empty_world
              (FindIdentity store_unreadable "Test Cert" empty_world).2 None
              "FindIdentity: failed to get 'labl' property: getCFDictValueCFStringRef: Nil value returned"
              eq_refl)
    as [[Hko _]|[(_ & Hids & _)|(_ & j & d & Hj & Hd & [(err & Herr & Hmsg)|(_ & _ & Hmsg)])]].
  - by destruct Hko.
  - discriminate.
  - exists j, d. split; [exact Hj|]. split; [exact Hd|].
    rewrite Herr.
    apply (f_equal (strip_prefix "FindIdentity: failed to get 'labl' property: ")) in Hmsg.
    rewrite strip_prefix_app in Hmsg. symmetry. exact Hmsg.
  - discriminate.
Defined.

(** ** The identity loop of scan, on any store *)

Lemma singleton_matching (identityLabel : string) (rest : list CFDictionaryRef)
    (h : CFTypeRef) :
  Some <$> reverse (matching identityLabel rest) = [h] ->
  Some <$> matching identityLabel rest = [h].
Proof.
  destruct (matching identityLabel rest) as [|o [|o' l]]; [done|done|].
  rewrite !reverse_cons, !fmap_app. intros Heq.
  apply (f_equal length) in Heq. rewrite !length_app in Heq. cbn in Heq. lia.
Qed.

Lemma scan_identities_cons (E : Env) (title : string) (titles : list string)
    (acc : list CFTypeRef) (w : World) :
  scan_identities E (title :: titles) acc w
  = match FindIdentity E title w with
    | (Returned (identityRefs, Some msg), w1) =>
      (Exited ("Failed to Export Identity: " +:+ msg), w1)
    | (Returned (identityRefs, None), w1) =>
      if (len identityRefs <? 1)%nat then (Exited "No Identity found in Keychain!", w1)
      else if (1 <? len identityRefs)%nat
      then (Exited "Multiple matching Identities found in Keychain! Most likely you have duplicate identity in separate Keychains, like one in System.keychain and one in your Login.keychain", w1)
      else scan_identities E titles (acc ++ default [] identityRefs) w1
    | (Panicked msg, w1) => (Panicked msg, w1)
    | (Exited msg, w1) => (Exited msg, w1)
    end.
Proof.
  cbn [scan_identities]. unfold bind at 1.
  destruct (FindIdentity E title w) as [[[refs [msg|]]|m|m] w1]; try reflexivity.
  destruct (len refs <? 1)%nat; [reflexivity|].
  by destruct (1 <? len refs)%nat.
Qed.

(** The loop of [scan] over the identities never panics and writes no
    file; when it returns, it has taken exactly one handle per title,
    in the order of the titles, each the reference of the one record
    after the first that carries the title, and its calls are those of
    one successful resolution per title. *)
Lemma scan_identities_run (E : Env) (titles : list string) (acc : list CFTypeRef)
    (w : World) :
  let run := scan_identities E titles acc w in
  (forall msg, run.1 <> Panicked msg)
  /\ files run.2 = files w
  /\ (forall refs, run.1 = Returned refs ->
        exists new,
          refs = acc ++ new
          /\ length new = length titles
          /\ Forall is_Some new
          /\ run.2 = after w (concat (resolution_calls E <$> new))
          /\ Forall2 (fun title h =>
                        exists d0 rest, env_identities E = d0 :: rest
                                        /\ Some <$> matching title rest = [h])
                     titles new).
Proof.
  cbn zeta. revert acc w. induction titles as [|title titles IH]; intros acc w.
  - cbn. split_and!; [discriminate|reflexivity|].
    intros refs [= <-]. exists []. rewrite app_nil_r, after_nil.
    split_and!; [reflexivity|reflexivity|constructor|reflexivity|constructor].
  - rewrite scan_identities_cons.
    destruct (FindIdentity_run_shape E title w) as (hs & tail & Hw & Hsome & Hpanic & _ & Hret).
    destruct (FindIdentity E title w) as [[[refs1 [msg|]]|m|m] w1] eqn:Hfind;
      cbn [fst snd] in Hw, Hpanic, Hret.
    + subst w1. split_and!; [discriminate|reflexivity|discriminate].
    + destruct refs1 as [l|].
      2: { subst w1. cbn. split_and!; [discriminate|reflexivity|discriminate]. }
      destruct (Hret l eq_refl) as [-> ->]. unfold len. cbn [default id].
      destruct hs as [|h [|h' hs]].
      * subst w1. cbn. split_and!; [discriminate|reflexivity|discriminate].
      * cbn [length Nat.ltb Nat.leb].
        destruct (IH (acc ++ [h]) w1) as (Hnp & Hfiles & Hrefs).
        split_and!; [exact Hnp|by rewrite Hfiles, Hw|].
        intros refs Hrun. destruct (Hrefs refs Hrun) as (new & -> & Hlen & Hnew & Hw' & Hall).
        exists (h :: new). rewrite <- app_assoc.
        split_and!; [reflexivity|cbn; by rewrite Hlen| |
                     rewrite Hw', Hw, after_after; reflexivity|].
        -- constructor; [by apply Forall_cons in Hsome as [? _]|exact Hnew].
        -- constructor; [|exact Hall].
           destruct (FindIdentity_nil_error_inv _ _ _ _ _ Hfind)
             as (_ & d0 & rest & Hids & _ & [= Heq]).
           exists d0, rest. split; [exact Hids|]. by apply singleton_matching.
      * subst w1. cbn. split_and!; [discriminate|reflexivity|discriminate].
    + by destruct (Hpanic m).
    + subst w1. split_and!; [discriminate|reflexivity|discriminate].
Qed.

(** X14. When the loop of [scan] over the required identities returns,
    it has collected exactly one non-NULL handle per title, in the
    order of the titles, after the handles it started with; the handle
    of a title is the reference of the only record after the first that
    carries that title; and no file was touched. *)
Theorem scan_identities_one_per_title (E : Env) (titles : list string)
    (identityExportRefs refs : list CFTypeRef) (w w' : World) :
  scan_identities E titles identityExportRefs w = (Returned refs, w') ->
  exists new,
    refs = identityExportRefs ++ new
    /\ length new = length titles
    /\ Forall is_Some new
    /\ w' = after w (concat (resolution_calls E <$> new))
    /\ Forall2 (fun title h =>
                  exists d0 rest, env_identities E = d0 :: rest
                                  /\ Some <$> matching title rest = [h])
               titles new.
Proof.
  intros Hrun.
  destruct (scan_identities_run E titles identityExportRefs w) as (_ & _ & Hrefs).
  rewrite Hrun in Hrefs. exact (Hrefs refs eq_refl).
Qed.

Lemma scan_identities_one_per_title_witness :
  exists new,
    [Some (mkIdentity 100)] = [] ++ new
    /\ length new = 1%nat
    /\ Forall is_Some new.
Proof.
  destruct (scan_identities_one_per_title store_match_at_1 ["Test Cert"] []
              [Some (mkIdentity 100)] empty_world
              (scan_identities store_match_at_1 ["Test Cert"] [] empty_world).2 eq_refl)
    as (new & Hrefs & Hlen & Hsome & _).
  exists new. split; [exact Hrefs|]. split; [exact Hlen|exact Hsome].
Defined.


(** ** scan, from the checks to the export *)

Lemma scan_export_dir_run (H : Host) (absExportOutputDirPath : string) (w : World) :
  scan_export_dir H absExportOutputDirPath w = (Returned tt, w)
  \/ exists msg, scan_export_dir H absExportOutputDirPath w = (Exited msg, w).
Proof.
  unfold scan_export_dir.
  destruct (host_IsDirExists H absExportOutputDirPath) as [dirExist [msg|]];
    [right; by eexists|].
  destruct dirExist; cbn [negb]; [by left|].
  destruct (host_Mkdir H absExportOutputDirPath) as [msg|]; [right; by eexists|by left].
Qed.

(** The release deferred by [scan] was given the empty slice: it
    changes nothing. *)
Lemma defer_release_nothing {A} (body : M A) (w : World) :
  defer (ReleaseRefList (default [] CreateEmptyCFTypeRefSlice)) body w = body w.
Proof. unfold defer. by destruct (body w) as [[a|m|m] w']. Qed.

Lemma retained_resolutions (E : Env) (new : list CFTypeRef) :
  retained (concat (resolution_calls E <$> new)) = new.
Proof. induction new as [|h new IH]; [done|]. cbn. f_equal. exact IH. Qed.

Lemma released_resolutions (E : Env) (new : list CFTypeRef) :
  released (concat (resolution_calls E <$> new))
  = concat ((fun _ => [env_resultRefs E; env_queryDict E]) <$> new).
Proof. induction new as [|h new IH]; [done|]. cbn. do 2 f_equal. exact IH. Qed.

(** The export step of [scan] on a non-empty slice. *)
Lemma scan_export_step (E : Env) (item : CFTypeRef) (items : list CFTypeRef)
    (outputFilePath : string) (w : World) :
  let run := (err <- ExportFromKeychain E (Some (item :: items)) outputFilePath ;;
              match err with
              | Some msg => exit ("Failed to export from Keychain: " +:+ msg)
              | None => ret tt
              end) w in
  (forall msg, run.1 = Panicked msg -> msg = "gobytes: length out of range")
  /\ (run.1 = Returned tt ->
      exists exportedData,
        env_export E (item :: items) = (errSecSuccess, exportedData)
        /\ 0 <= C_int (CFDataGetLength exportedData)
        /\ run.2 = {| calls := calls w ++
                        [Call_SecItemExport (item :: items);
                         Call_GoBytes (Some (data_obj exportedData))
                           (C_int (CFDataGetLength exportedData));
                         Call_WriteBytesToFile outputFilePath
                           (CFDataGetBytePtr exportedData
                              <$> seqZ 0 (C_int (CFDataGetLength exportedData)));
                         Call_CFRelease (Some (data_obj exportedData))];
                      files := <[outputFilePath :=
                                   CFDataGetBytePtr exportedData
                                     <$> seqZ 0 (C_int (CFDataGetLength exportedData))]>
                                 (files w) |}).
Proof.
  cbn zeta. unfold bind.
  destruct (env_export E (item :: items)) as [status exportedData] eqn:Hexp.
  destruct (decide (status = errSecSuccess)) as [->|Hko].
  - rewrite (ExportFromKeychain_after_export _ _ _ _ _ _ Hexp).
    destruct (_ <? 0) eqn:Hn.
    + split; [by intros msg [= <-]|discriminate].
    + apply Z.ltb_ge in Hn.
      destruct (env_write_fault E outputFilePath _) as [[msg [part|]]|];
        (split; [discriminate|]); try discriminate.
      intros _. exists exportedData. split_and!; [reflexivity|lia|reflexivity].
  - rewrite (ExportFromKeychain_failure _ _ _ _ _ _ _ Hexp Hko).
    split; discriminate.
Qed.

(** X16. In [scan] the call of [ExportFromKeychain] never gets an empty
    slice: the part of [scan] from the checks to the export never
    panics on an index; its only possible panic is the one of the copy
    of the exported bytes. *)
Theorem scan_export_no_index_panic (E : Env) (H : Host) (Identities : list string)
    (ProvProfiles : list (string * string)) (w : World) :
  (scan_export E H Identities ProvProfiles w).1 <> Panicked "index out of range"
  /\ (forall msg, (scan_export E H Identities ProvProfiles w).1 = Panicked msg ->
                  msg = "gobytes: length out of range").
Proof.
  assert (Hall : forall msg, (scan_export E H Identities ProvProfiles w).1 = Panicked msg ->
                             msg = "gobytes: length out of range").
  { unfold scan_export.
    destruct (length Identities <? 1)%nat eqn:Hids; [discriminate|].
    destruct (length ProvProfiles <? 1)%nat; [discriminate|].
    destruct (host_AskForBool H) as [isShouldExport [msg|]]; [discriminate|].
    destruct isShouldExport; cbn [negb]; [|discriminate].
    destruct (host_AbsPath H confExportOutputDirPath) as [abs [msg|]]; [discriminate|].
    unfold bind at 1.
    destruct (scan_export_dir_run H abs w) as [->|[msg ->]]; [|discriminate].
    rewrite defer_release_nothing. cbn [default id CreateEmptyCFTypeRefSlice].
    unfold bind at 1.
    destruct (scan_identities_run E Identities [] w) as (Hnp & _ & Hrefs).
    destruct (scan_identities E Identities [] w) as [[refs|m|m] w1]; cbn [fst snd] in *;
      [|by destruct (Hnp m)|discriminate].
    destruct (Hrefs refs eq_refl) as (new & -> & Hlen & _).
    apply Nat.ltb_ge in Hids.
    destruct new as [|item items]; [cbn in Hlen; lia|]. cbn [app].
    exact (proj1 (scan_export_step E item items _ w1)). }
  split; [|exact Hall].
  intros Hidx. specialize (Hall _ Hidx). discriminate.
Qed.

(** X17. Unless the answer to "Do you want to export these files?" is
    yes, the part of [scan] from the checks to the export makes no call
    to the keychain and writes no file. *)
Theorem scan_export_needs_consent (E : Env) (H : Host) (Identities : list string)
    (ProvProfiles : list (string * string)) (w : World) :
  host_AskForBool H <> (true, None) ->
  (scan_export E H Identities ProvProfiles w).2 = w.
Proof.
  intros Hno. unfold scan_export.
  destruct (length Identities <? 1)%nat; [reflexivity|].
  destruct (length ProvProfiles <? 1)%nat; [reflexivity|].
  destruct (host_AskForBool H) as [isShouldExport [msg|]]; [reflexivity|].
  destruct isShouldExport; [by destruct Hno|reflexivity].
Qed.

Lemma scan_export_needs_consent_witness :
  (scan_export store_match_at_1 host_no ["Test Cert"] [("Profile", "UUID-1")] empty_world).2
  = empty_world.
Proof.
  apply (scan_export_needs_consent store_match_at_1 host_no ["Test Cert"]
           [("Profile", "UUID-1")] empty_world).
  discriminate.
Defined.

(** X18. When the part of [scan] from the checks to the export returns
    after a yes, it has resolved every required identity to one handle,
    exported exactly these handles, in the order of the identities, in
    one call, and written the exported bytes to "Identities.p12" in the
    export directory. The handles it retained are released by none of
    its calls: the only releases are those of the two containers of
    each query and of the exported data. *)
Theorem scan_export_done (E : Env) (H : Host) (Identities : list string)
    (ProvProfiles : list (string * string)) (w w' : World) :
  host_AskForBool H = (true, None) ->
  scan_export E H Identities ProvProfiles w = (Returned tt, w') ->
  exists new exportedData cs,
    length new = length Identities
    /\ Forall2 (fun title h =>
                  exists d0 rest, env_identities E = d0 :: rest
                                  /\ Some <$> matching title rest = [h])
               Identities new
    /\ env_export E new = (errSecSuccess, exportedData)
    /\ calls w' = calls w ++ cs
    /\ Call_SecItemExport new ∈ cs
    /\ retained cs = new
    /\ released cs = concat ((fun _ => [env_resultRefs E; env_queryDict E]) <$> new)
                     ++ [Some (data_obj exportedData)]
    /\ files w' = <[host_Join H (host_AbsPath H confExportOutputDirPath).1 "Identities.p12" :=
                     CFDataGetBytePtr exportedData
                       <$> seqZ 0 (C_int (CFDataGetLength exportedData))]> (files w).
Proof.
  intros Hyes. unfold scan_export.
  destruct (length Identities <? 1)%nat eqn:Hids; [discriminate|].
  destruct (length ProvProfiles <? 1)%nat; [discriminate|].
  rewrite Hyes. cbn [negb].
  destruct (host_AbsPath H confExportOutputDirPath) as [abs [msg|]]; [discriminate|].
  unfold bind at 1.
  destruct (scan_export_dir_run H abs w) as [->|[msg ->]]; [|discriminate].
  rewrite defer_release_nothing. cbn [default id CreateEmptyCFTypeRefSlice fst].
  unfold bind at 1.
  destruct (scan_identities_run E Identities [] w) as (_ & _ & Hrefs).
  destruct (scan_identities E Identities [] w) as [[refs|m|m] w1]; cbn [fst snd] in *;
    [|discriminate..].
  destruct (Hrefs refs eq_refl) as (new & -> & Hlen & _ & -> & Hall).
  apply Nat.ltb_ge in Hids.
  destruct new as [|item items]; [cbn in Hlen; lia|]. cbn [app].
  destruct (scan_export_step E item items (host_Join H abs "Identities.p12")
              (after w (concat (resolution_calls E <$> item :: items)))) as (_ & Hdone).
  intros Hrun. rewrite Hrun in Hdone. cbn [fst snd] in Hdone.
  destruct (Hdone eq_refl) as (exportedData & Hexp & _ & ->).
  exists (item :: items), exportedData. eexists. cbn [calls files after].
  split_and!; [exact Hlen|exact Hall|exact Hexp| |  | | |reflexivity].
  - rewrite <- app_assoc. reflexivity.
  - apply elem_of_app. right. by left.
  - rewrite retained_app, retained_resolutions. cbn. by rewrite app_nil_r.
  - rewrite released_app, released_resolutions. reflexivity.
Qed.

Lemma scan_export_done_witness :
  exists new exportedData,
    length new = 1%nat
    /\ env_export store_match_at_1 new = (errSecSuccess, exportedData).
Proof.
  destruct (scan_export_done store_match_at_1 host_yes ["Test Cert"] [("Profile", "UUID-1")]
              empty_world
              (scan_export store_match_at_1 host_yes ["Test Cert"] [("Profile", "UUID-1")]
                 empty_world).2 eq_refl eq_refl)
    as (new & exportedData & cs & Hlen & _ & Hexp & _).
  exists new, exportedData. split; [exact Hlen|exact Hexp].
Defined.

(** ** A NULL reference in the store *)

(** Going through records that read well, from the top of the array
    down to some index. *)
Lemma FindIdentity_loop_through (identityLabel : string) (d0 : CFDictionaryRef)
    (pre post extra : list CFDictionaryRef) (acc : list CFTypeRef) (w : World) :
  Forall (scannable identityLabel) post ->
  FindIdentity_loop (d0 :: pre ++ post ++ extra) identityLabel
    (length pre + length post) acc w
  = FindIdentity_loop (d0 :: pre ++ post ++ extra) identityLabel (length pre)
      (acc ++ (Some <$> reverse (matching identityLabel post)))
      (after w (Call_CFRetain <$> (Some <$> reverse (matching identityLabel post)))).
Proof.
  revert extra acc w.
  induction post as [|x post IH] using rev_ind; intros extra acc w Hall.
  - cbn [length]. rewrite Nat.add_0_r. cbn. by rewrite app_nil_r, after_nil.
  - apply Forall_app in Hall as [Hpost Hx].
    apply Forall_singleton in Hx as (labl & Hl & Href).
    rewrite length_app, Nat.add_1_r, Nat.add_succ_r, <- (app_assoc post [x] extra).
    assert (Hd : (d0 :: pre ++ post ++ [x] ++ extra) !! S (length pre + length post)
                 = Some x).
    { cbn [lookup list_lookup]. rewrite app_assoc.
      apply list_lookup_middle. by rewrite length_app. }
    destruct (decide (labl = identityLabel)) as [->|Hne].
    + destruct (Href eq_refl) as [o Ho].
      rewrite (loop_match _ _ _ _ Hd o acc w Hl Ho), (IH _ _ _ Hpost).
      rewrite (matching_snoc_match _ _ _ _ Hl Ho), reverse_snoc, after_after.
      cbn. by rewrite <- app_assoc.
    + rewrite (loop_skip _ _ _ _ Hd labl acc Hl Hne), (IH _ _ _ Hpost).
      by rewrite (matching_snoc_skip _ _ _ _ Hl Hne).
Qed.

(** X19. A record after the first that carries the label with a NULL
    reference ends the process inside [CFRetain], when the records
    after it read well: the handles retained until then stay retained
    and nothing deferred runs, so neither the result array nor the
    query dictionary is released. *)
Theorem FindIdentity_null_reference (E : Env) (identityLabel : string) (w : World)
    (d0 x : CFDictionaryRef) (pre post : list CFDictionaryRef) :
  env_copy_status E = errSecSuccess ->
  env_identities E = d0 :: pre ++ x :: post ->
  Forall (scannable identityLabel) post ->
  record_label x = Some identityLabel ->
  x !! "v_Ref" = Some None ->
  FindIdentity E identityLabel w
  = (Exited "CFRetain: NULL",
     after w ([Call_SecItemCopyMatching]
              ++ (Call_CFRetain <$> (Some <$> reverse (matching identityLabel post))))).
Proof.
  intros Hok Hids Hpost Hl Hnull.
  rewrite (FindIdentity_some_identities _ _ _ Hok _ _ Hids).
  replace (length (pre ++ x :: post)) with (length (pre ++ [x]) + length post)%nat
    by (rewrite !length_app; cbn; lia).
  replace (d0 :: pre ++ x :: post) with (d0 :: (pre ++ [x]) ++ post ++ [])
    by (by rewrite app_nil_r, <- app_assoc).
  rewrite (FindIdentity_loop_through _ _ _ _ _ _ _ Hpost).
  rewrite length_app, Nat.add_1_r, FindIdentity_loop_S.
  replace ((d0 :: (pre ++ [x]) ++ post ++ []) !! S (length pre)) with (Some x).
  2: { symmetry. cbn [lookup list_lookup]. rewrite <- app_assoc.
       by apply list_lookup_middle. }
  rewrite (record_label_read _ _ Hl), String.eqb_refl. cbn [negb].
  unfold getCFDictValueRef, CFDictionaryGetValueIfPresent, CFDictionaryGetValue.
  rewrite Hnull. cbn. by rewrite after_after.
Qed.

Lemma FindIdentity_null_reference_witness :
  FindIdentity
    (mkEnv 0 [mkRecord 10 "Other" (mkIdentity 100);
              <["labl" := mkString 11 "Test Cert"]> (<["v_Ref" := None]> ∅);
              mkRecord 12 "Test Cert" (mkIdentity 102)] 0 (mkData 900 5))
    "Test Cert" empty_world
  = (Exited "CFRetain: NULL",
     after empty_world [Call_SecItemCopyMatching; Call_CFRetain (Some (mkIdentity 102))]).
Proof.
  apply (FindIdentity_null_reference
           (mkEnv 0 [mkRecord 10 "Other" (mkIdentity 100);
                     <["labl" := mkString 11 "Test Cert"]> (<["v_Ref" := None]> ∅);
                     mkRecord 12 "Test Cert" (mkIdentity 102)] 0 (mkData 900 5))
           "Test Cert" empty_world (mkRecord 10 "Other" (mkIdentity 100))
           (<["labl" := mkString 11 "Test Cert"]> (<["v_Ref" := None]> ∅))
           [] [mkRecord 12 "Test Cert" (mkIdentity 102)]).
  - reflexivity.
  - reflexivity.
  - repeat constructor. exists "Test Cert". split; [reflexivity|]. intros _. by eexists.
  - reflexivity.
  - reflexivity.
Defined.
